(** * NFT transfer service of the wallet core

    A shallow embedding of
    [packages/core/src/service/transfer/nftService.ts]: the three
    operation encoders ([nftTransferBody], [nftRenewBody], [nftLinkBody]),
    the message builder [createNftTransfer] and the six public entry points
    (estimate and send for transfer, renew and link).

    Conventions of the embedding.
    - JavaScript [number], [bigint] and [BigNumber] values that hold coin
      amounts, balances, fee deltas, sequence numbers and query ids are
      integers and are modelled by [Z]; the arithmetic the service performs
      on them (negation, addition, comparison) is exact on integers.  A
      fee delta that is not an integer ([NaN], a fraction) is outside the
      model.
    - An exception is an [Err] result; [async] functions are sequential, so
      [await] is the bind of the monad.
    - Calls that leave the module (guards and helpers of [./common], the
      secret store, key derivation, the HTTP clients) are recorded, in
      order, in a trace of [Event]s. *)

From Stdlib Require Import ZArith List String Ascii Bool Lia.
Import ListNotations.

#[local] Set Warnings "-register-all".

Local Open Scope string_scope.
Local Open Scope Z_scope.

(** ** Failures *)

(** The error taxonomy of the service.  [InvalidAmount] is the
    [Error("Unexpected nft transfer amount: ...")] thrown by
    [sendNftTransfer]; it carries the offending amount. *)
Inductive Error : Type :=
| FormatError
| RangeError
| ServiceUnavailable
| EmptyBalance
| InsufficientBalance
| InvalidAmount (amount : Z)
| WrongPassword
| RemoteRejection.

Inductive result (A : Type) : Type :=
| Ok (a : A)
| Err (e : Error).

Arguments Ok {A} a.
Arguments Err {A} e.

Definition rbind {A B : Type} (r : result A) (k : A -> result B) : result B :=
  match r with
  | Ok a => k a
  | Err e => Err e
  end.

Declare Scope result_scope.
Delimit Scope result_scope with result.
Notation "x <- r ;; k" := (rbind r (fun x => k))
  (at level 61, r at next level, right associativity) : result_scope.
Notation "r >>= k" := (rbind r k)
  (at level 58, left associativity) : result_scope.

(** ** JavaScript idioms *)

(** [x || 0] on an optional number: [undefined] and [0] are falsy. *)
Definition orZero (x : option Z) : Z :=
  match x with
  | Some v => if v =? 0 then 0 else v
  | None => 0
  end.

(** Truthiness of a string: every string but the empty one. *)
Definition truthy (s : string) : bool :=
  match s with
  | EmptyString => false
  | String _ _ => true
  end.

(** ** Cells and the cell builder (ton-core) *)

Inductive Cell : Type :=
| mkCell (bits : list bool) (refs : list Cell).

Definition cellBits (c : Cell) : list bool :=
  match c with mkCell b _ => b end.

Definition cellRefs (c : Cell) : list Cell :=
  match c with mkCell _ r => r end.

Record Address : Type := mkAddress {
  workChain : Z;   (* signed 8-bit workchain id *)
  hash : Z         (* the 32-byte account hash, as a 256-bit number *)
}.

Record Builder : Type := mkBuilder {
  bbits : list bool;
  brefs : list Cell
}.

Definition beginCell : Builder := mkBuilder [] [].

Definition endCell (b : Builder) : Cell := mkCell (bbits b) (brefs b).

(** Big-endian bits of the [w] low bits of [v]. *)
Fixpoint uintBits (w : nat) (v : Z) : list bool :=
  match w with
  | O => []
  | S w' => Z.testbit v (Z.of_nat w') :: uintBits w' v
  end.

(** The number a big-endian bit string denotes (what [loadUint] reads). *)
Definition bitsToZ (l : list bool) : Z :=
  fold_left (fun acc (b : bool) => 2 * acc + (if b then 1 else 0)) l 0.

(** A cell of ton-core holds at most 1023 bits and 4 references; the
    cells built by this service carry at most one reference. *)
Definition maxBits : nat := 1023.
Definition maxRefs : nat := 4.

Definition writeBits (l : list bool) (b : Builder) : result Builder :=
  if (List.length (bbits b) + List.length l <=? maxBits)%nat
  then Ok (mkBuilder (bbits b ++ l)%list (brefs b))
  else Err RangeError.

Definition storeBit (x : bool) (b : Builder) : result Builder :=
  writeBits [x] b.

Definition storeUint (v : Z) (w : nat) (b : Builder) : result Builder :=
  if (0 <=? v) && (v <? 2 ^ Z.of_nat w)
  then writeBits (uintBits w v) b
  else Err RangeError.

(** Two's complement on [S w] bits: sign bit, then the magnitude bits. *)
Definition storeInt (v : Z) (w : nat) (b : Builder) : result Builder :=
  match w with
  | O => Err RangeError
  | S w' =>
      let half := 2 ^ Z.of_nat w' in
      if (- half <=? v) && (v <? half)
      then if v <? 0
           then writeBits (true :: uintBits w' (half + v)) b
           else writeBits (false :: uintBits w' v) b
      else Err RangeError
  end.

Definition storeBuffer32 (h : Z) (b : Builder) : result Builder :=
  writeBits (uintBits 256 h) b.

(** A standard address: tag [10], no anycast, workchain, hash. *)
Definition storeAddress (a : Address) (b : Builder) : result Builder :=
  (storeUint 2 2 b >>= storeUint 0 1 >>= storeInt (workChain a) 8
     >>= storeBuffer32 (hash a))%result.

(** Number of bytes the variable-length encoding of [v > 0] takes. *)
Definition sizeBytes (v : Z) : Z := (Z.log2 v + 1 + 7) / 8.

(** Coins are a [VarUInteger 16]: a 4-bit byte count, then the bytes. *)
Definition storeCoins (amount : Z) (b : Builder) : result Builder :=
  if amount <? 0 then Err RangeError
  else if amount =? 0 then storeUint 0 4 b
  else (storeUint (sizeBytes amount) 4 b
          >>= storeUint amount (Z.to_nat (8 * sizeBytes amount)))%result.

Definition storeRef (c : Cell) (b : Builder) : result Builder :=
  if (List.length (brefs b) <? maxRefs)%nat
  then Ok (mkBuilder (bbits b) (brefs b ++ [c])%list)
  else Err RangeError.

Definition storeMaybeRef (c : option Cell) (b : Builder) : result Builder :=
  match c with
  | Some c' => (storeBit true b >>= storeRef c')%result
  | None => storeBit false b
  end.

(** ** Amount conversion (ton-core [toNano] on a decimal string) *)

(** [BigInt(text)]: surrounding white space is dropped; the empty text is
    0; otherwise the text is a decimal literal with an optional sign, or an
    unsigned hexadecimal, octal or binary literal with its prefix.  [None]
    stands for the SyntaxError on any other text.  Of the white space of
    JavaScript the ASCII characters are modelled. *)
Definition isSpace (c : ascii) : bool :=
  let n := nat_of_ascii c in
  ((9 <=? n) && (n <=? 13) || (n =? 32))%nat.

Fixpoint trimStart (s : string) : string :=
  match s with
  | String c r => if isSpace c then trimStart r else s
  | EmptyString => EmptyString
  end.

(** [trimEnd s] drops the white space at the end of [s]. *)
Fixpoint trimEnd (s : string) : string :=
  match s with
  | EmptyString => EmptyString
  | String c r =>
      match trimEnd r with
      | EmptyString => if isSpace c then EmptyString else String c EmptyString
      | r' => String c r'
      end
  end.

Definition digitValue (c : ascii) : option Z :=
  let n := Z.of_nat (nat_of_ascii c) in
  if (48 <=? n) && (n <=? 57) then Some (n - 48)
  else if (97 <=? n) && (n <=? 102) then Some (n - 87)
  else if (65 <=? n) && (n <=? 70) then Some (n - 55)
  else None.

Fixpoint digitsIn (base acc : Z) (s : string) : option Z :=
  match s with
  | EmptyString => Some acc
  | String c r =>
      match digitValue c with
      | Some d => if d <? base then digitsIn base (base * acc + d) r else None
      | None => None
      end
  end.

(** A literal has at least one digit. *)
Definition literalIn (base : Z) (s : string) : option Z :=
  match s with
  | EmptyString => None
  | _ => digitsIn base 0 s
  end.

Definition stringToBigInt (text : string) : option Z :=
  let t := trimEnd (trimStart text) in
  match t with
  | EmptyString => Some 0
  | String "+" r => literalIn 10 r
  | String "-" r => option_map Z.opp (literalIn 10 r)
  | String "0" (String x r) =>
      if Ascii.eqb x "x" || Ascii.eqb x "X" then literalIn 16 r
      else if Ascii.eqb x "o" || Ascii.eqb x "O" then literalIn 8 r
      else if Ascii.eqb x "b" || Ascii.eqb x "B" then literalIn 2 r
      else digitsIn 10 0 t
  | _ => digitsIn 10 0 t
  end.

(** [splitDot s] is the text before the first dot and, when there is a
    dot, the text after it. *)
Fixpoint splitDot (s : string) : string * option string :=
  match s with
  | EmptyString => (EmptyString, None)
  | String c r =>
      if Ascii.eqb c "."%char then (EmptyString, Some r)
      else let '(w, f) := splitDot r in (String c w, f)
  end.

Fixpoint padRight (n : nat) (s : string) : string :=
  match n with
  | O => s
  | S n' =>
      match s with
      | EmptyString => String "0"%char (padRight n' EmptyString)
      | String c r => String c (padRight n' r)
      end
  end.

(** The leading minus signs of [toNano]: each one flips the sign. *)
Fixpoint stripMinus (neg : bool) (s : string) : bool * string :=
  match s with
  | String "-" r => stripMinus (negb neg) r
  | _ => (neg, s)
  end.

Definition orText (s default : string) : string :=
  match s with
  | EmptyString => default
  | _ => s
  end.

(** [toNano] on a string: the minus signs are taken off, the text is split
    at its dots, an empty whole part or fraction counts as '0', the
    fraction is padded to nine characters, and the result is the whole
    part times 10^9 plus the fraction, negated for an odd number of minus
    signs.  [None] stands for the exception: on the text '.', on more than
    one dot, on a fraction of more than nine characters, and on a part
    [BigInt] rejects.  The service applies it to the literals '1' and
    '0.05' only. *)
Definition toNano (src : string) : option Z :=
  let '(neg, src) := stripMinus false src in
  if String.eqb src "." then None
  else
    let '(whole, rest) := splitDot src in
    let frac := match rest with Some f => f | None => EmptyString end in
    match snd (splitDot frac) with
    | Some _ => None
    | None =>
        let whole := orText whole "0" in
        let frac := orText frac "0" in
        if (9 <? String.length frac)%nat then None
        else
          match stringToBigInt whole, stringToBigInt (padRight 9 frac) with
          | Some w, Some f =>
              let r := w * 1000000000 + f in
              Some (if neg then - r else r)
          | _, _ => None
          end
    end.

(** The value of a literal that [toNano] accepts. *)
Definition nanoOr0 (src : string) : Z :=
  match toNano src with Some v => v | None => 0 end.

(** ** Data of the service *)

Definition Buffer : Type := list Byte.byte.

(** [Buffer.alloc(n)]: [n] zero bytes. *)
Definition Buffer_alloc (n : nat) : Buffer := repeat Byte.x00 n.

Record KeyPair : Type := mkKeyPair {
  kpPublicKey : Buffer;
  secretKey : Buffer
}.

(** [WalletState]: [publicKey] and [active.rawAddress]. *)
Record WalletState : Type := mkWalletState {
  publicKey : string;
  rawAddress : string
}.

(** [TonRecipientData]: [toAccount.address.raw] and the optional comment. *)
Record TonRecipientData : Type := mkRecipient {
  toAccountRaw : string;
  recipientComment : option string
}.

(** [NftItemRepr]: only [address] is read. *)
Record NftItemRepr : Type := mkNftItem {
  nftItemAddress : string
}.

(** [MessageConsequences]: only [event.extra], the fee delta, is read. *)
Record MessageConsequences : Type := mkConsequences {
  extra : Z
}.

(** The account the balance query returns. *)
Record Account : Type := mkAccount {
  balance : Z
}.

(** Everything the service reaches through its imports: the pure library
    functions of ton-core that are not modelled above, the clock, the
    remote account service, the secret store, key derivation, the message
    assembler of [./common] and the three submission endpoints. *)
Record World : Type := mkWorld {
  parsedAddress : string -> option Address;
  commentCell : string -> Cell;
  dateNow : Z;
  serviceTimeOk : bool;
  accountState : WalletState -> option (Account * Z);
  walletMnemonic : string -> string -> option (list string);
  deriveKeyPair : list string -> KeyPair;
  transferMessage :
    Z -> WalletState -> Buffer -> string -> Z -> Cell -> option Cell;
  toBase64 : Cell -> string;
  emulateMessage : string -> option MessageConsequences;
  blockchainMessage : string -> bool;
  bocEndpoint : string -> bool
}.

(** A collaborator that gives no answer fails with the error of its kind. *)
Definition orFail {A : Type} (e : Error) (x : option A) : result A :=
  match x with
  | Some a => Ok a
  | None => Err e
  end.

Definition accepted (e : Error) (ok : bool) : result unit :=
  if ok then Ok tt else Err e.

(** [Address.parse]: total, it yields an address or a format error. *)
Definition Address_parse (w : World) (source : string) : result Address :=
  orFail FormatError (parsedAddress w source).

(** ** Operation encoders *)

Record NftTransferParams : Type := mkTransferParams {
  queryId : option Z;
  newOwnerAddress : Address;
  responseAddress : Address;
  forwardAmount : Z;
  forwardPayload : option Cell
}.

Record NftRenewParams : Type := mkRenewParams {
  renewQueryId : option Z
}.

Record NftLinkParams : Type := mkLinkParams {
  linkQueryId : option Z;
  linkToAddress : string
}.

Definition initNftTransferAmount : Z := nanoOr0 "1".
Definition nftTransferForwardAmount : Z := 1.

Definition opTransfer : Z := 0x5fcc3d14.
Definition opChangeDnsRecord : Z := 0x4eb1f0f9.
Definition DNS_CATEGORY_WALLET : Z :=
  0xe8d44050873dba865aa7c170ab4cce64d90839a34dcfd6cf71d14e0205443b1b.
Definition dnsAddressMarker : Z := 0x9fd3.

Definition finish (b : Builder) : result Cell := Ok (endCell b).

Definition nftTransferBody (params : NftTransferParams) : result Cell :=
  (storeUint opTransfer 32 beginCell
     >>= storeUint (orZero (queryId params)) 64
     >>= storeAddress (newOwnerAddress params)
     >>= storeAddress (responseAddress params)
     >>= storeBit false
     >>= storeCoins (forwardAmount params)
     >>= storeMaybeRef (forwardPayload params)
     >>= finish)%result.

(** [params?.queryId]: the parameter object itself is optional. *)
Definition nftRenewBody (params : option NftRenewParams) : result Cell :=
  (storeUint opChangeDnsRecord 32 beginCell
     >>= storeUint
           (orZero (match params with
                    | Some p => renewQueryId p
                    | None => None
                    end)) 64
     >>= storeUint 0 256
     >>= finish)%result.

Definition addressToDNSAddressFormat (w : World) (address : string)
  : result Builder :=
  (b <- storeUint dnsAddressMarker 16 beginCell ;;
   a <- Address_parse w address ;;
   storeAddress a b >>= storeUint 0 8)%result.

Definition nftLinkBody (w : World) (params : NftLinkParams) : result Cell :=
  (cell <- storeUint opChangeDnsRecord 32 beginCell
             >>= storeUint (orZero (linkQueryId params)) 64
             >>= storeUint DNS_CATEGORY_WALLET 256 ;;
   cell <- (if truthy (linkToAddress params)
            then sub <- addressToDNSAddressFormat w (linkToAddress params) ;;
                 storeRef (endCell sub) cell
            else Ok cell) ;;
   finish cell)%result.

(** What a reader takes from the head of an encoded body. *)
Definition cellOp (c : Cell) : Z := bitsToZ (firstn 32 (cellBits c)).

Definition cellQueryId (c : Cell) : Z :=
  bitsToZ (firstn 64 (skipn 32 (cellBits c))).

(** ** Calls, traces and the monad of the entry points *)

Inductive Event : Type :=
| CheckServiceTime
| GetWalletMnemonic (pk password : string)
| MnemonicToPrivateKey (mnemonic : list string)
| GetWalletBalance (state : WalletState)
| CheckWalletPositiveBalance (wallet : Account)
| CheckWalletBalance (total : Z) (wallet : Account)
| CreateTransferMessage (seqno : Z) (state : WalletState) (key : Buffer)
    (to : string) (value : Z) (body : Cell)
| EmulateMessageToWallet (boc : string)
| SendBlockchainMessage (boc : string)
| SendBoc (boc : string).

(** A computation yields the calls it made, then a value or the failure
    that stopped it. *)
Definition M (A : Type) : Type := (list Event * result A)%type.

Definition ret {A : Type} (a : A) : M A := ([], Ok a).

Definition throw {A : Type} (e : Error) : M A := ([], Err e).

Definition lift {A : Type} (r : result A) : M A := ([], r).

Definition call {A : Type} (e : Event) (r : result A) : M A := ([e], r).

Definition bind {A B : Type} (m : M A) (k : A -> M B) : M B :=
  match m with
  | (t, Ok a) => let '(t', r) := k a in ((t ++ t')%list, r)
  | (t, Err e) => (t, Err e)
  end.

Definition trace {A : Type} (m : M A) : list Event := fst m.
Definition outcome {A : Type} (m : M A) : result A := snd m.

Declare Scope m_scope.
Delimit Scope m_scope with M.
Notation "x <- m ;; k" := (bind m (fun x => k))
  (at level 61, m at next level, right associativity) : m_scope.
Notation "' p <- m ;; k" := (bind m (fun x => match x with p => k end))
  (at level 61, p pattern, m at next level, right associativity) : m_scope.
Notation "m ;; k" := (bind m (fun _ => k))
  (at level 61, right associativity) : m_scope.

(** ** Collaborators imported by the service *)

(** Modelled from the spec: [checkServiceTimeOrDie] of [./common] is not
    part of the sources at hand.  Spec 4.4: it queries the remote service
    and fails with ServiceUnavailable if the service cannot attest the
    current time within tolerance. *)
Definition checkServiceTimeOrDie (w : World) : M unit :=
  call CheckServiceTime
       (accepted ServiceUnavailable (serviceTimeOk w)).

(** Modelled from the spec: [checkWalletPositiveBalanceOrDie] of [./common]
    is not part of the sources at hand.  Spec 4.4: it fails with
    EmptyBalance if the spendable balance is at most 0. *)
Definition checkWalletPositiveBalanceOrDie (wallet : Account) : M unit :=
  call (CheckWalletPositiveBalance wallet)
       (if balance wallet <=? 0 then Err EmptyBalance else Ok tt).

(** Modelled from the spec: [checkWalletBalanceOrDie] of [./common] is not
    part of the sources at hand.  Spec 4.4: it fails with
    InsufficientBalance if the computed total exceeds the spendable
    balance. *)
Definition checkWalletBalanceOrDie (total : Z) (wallet : Account) : M unit :=
  call (CheckWalletBalance total wallet)
       (if balance wallet <? total then Err InsufficientBalance else Ok tt).

(** Modelled from the spec: [getWalletBalance] of [./common] is not part of
    the sources at hand.  Spec 6: the account query returns the balance and
    the sequence number of the address; a failed request is a
    RemoteRejection. *)
Definition getWalletBalance (w : World) (state : WalletState)
  : M (Account * Z) :=
  call (GetWalletBalance state)
       (orFail RemoteRejection (accountState w state)).

(** Modelled from the spec: [getWalletMnemonic] of [../mnemonicService] is
    not part of the sources at hand.  Spec 6: the secret store returns the
    mnemonic words for a public key and passphrase, or fails with
    WrongPassword. *)
Definition getWalletMnemonic (w : World) (pk password : string)
  : M (list string) :=
  call (GetWalletMnemonic pk password)
       (orFail WrongPassword (walletMnemonic w pk password)).

(** Key derivation of ton-crypto. *)
Definition mnemonicToPrivateKey (w : World) (mnemonic : list string)
  : M KeyPair :=
  call (MnemonicToPrivateKey mnemonic) (Ok (deriveKeyPair w mnemonic)).

(** Modelled from the spec: [createTransferMessage] of [./common] is not
    part of the sources at hand.  Spec 4.3: from the sequence number, the
    wallet state and a key, and from destination, value and body, it
    produces the cell of the signed message; what it computes is left to
    the world, and malformed input is a FormatError. *)
Definition createTransferMessage (w : World) (seqno : Z)
    (state : WalletState) (key : Buffer) (to : string) (value : Z)
    (body : Cell) : M Cell :=
  call (CreateTransferMessage seqno state key to value body)
       (orFail FormatError
          (transferMessage w seqno state key to value body)).

Definition emulateMessageToWallet (w : World) (boc : string)
  : M MessageConsequences :=
  call (EmulateMessageToWallet boc)
       (orFail RemoteRejection (emulateMessage w boc)).

Definition sendBlockchainMessage (w : World) (boc : string) : M unit :=
  call (SendBlockchainMessage boc)
       (accepted RemoteRejection (blockchainMessage w boc)).

Definition sendBoc (w : World) (boc : string) : M unit :=
  call (SendBoc boc) (accepted RemoteRejection (bocEndpoint w boc)).

(** Modelled from the spec: [getKeyPairAndSeqno] of [./common] is not part
    of the sources at hand.  Spec 4.5, Send: run the service-time check,
    retrieve the real signing key material, fetch balance and sequence
    number, run the strict sufficiency check; spec 4.4: the total checked is
    the transfer amount plus the fee, the fee being the reported delta
    negated as on the transfer path. *)
Definition getKeyPairAndSeqno (w : World) (state : WalletState)
    (fee : MessageConsequences) (password : string) (amount : Z)
  : M (Z * KeyPair) :=
  (checkServiceTimeOrDie w ;;
   mnemonic <- getWalletMnemonic w (publicKey state) password ;;
   keyPair <- mnemonicToPrivateKey w mnemonic ;;
   let total := amount + extra fee * -1 in
   ' (wallet, seqno) <- getWalletBalance w state ;;
   checkWalletBalanceOrDie total wallet ;;
   ret (seqno, keyPair))%M.

(** ** The service *)

(** [recipient.comment ? comment(recipient.comment) : null] *)
Definition commentPayload (w : World) (recipient : TonRecipientData)
  : option Cell :=
  match recipientComment recipient with
  | Some text => if truthy text then Some (commentCell w text) else None
  | None => None
  end.

Definition createNftTransfer (w : World) (seqno : Z)
    (walletState : WalletState) (recipientAddress nftAddress : string)
    (nftTransferAmount : Z) (forwardPayload : option Cell)
    (key : option Buffer) : M Cell :=
  let key := match key with Some k => k | None => Buffer_alloc 64 end in
  (body <- lift (newOwner <- Address_parse w recipientAddress ;;
                 response <- Address_parse w (rawAddress walletState) ;;
                 nftTransferBody
                   (mkTransferParams (Some (dateNow w)) newOwner response
                      nftTransferForwardAmount forwardPayload))%result ;;
   createTransferMessage w seqno walletState key nftAddress
     nftTransferAmount body)%M.

Definition estimateNftTransfer (w : World) (walletState : WalletState)
    (recipient : TonRecipientData) (nftItem : NftItemRepr)
  : M MessageConsequences :=
  (checkServiceTimeOrDie w ;;
   ' (wallet, seqno) <- getWalletBalance w walletState ;;
   checkWalletPositiveBalanceOrDie wallet ;;
   cell <- createNftTransfer w seqno walletState (toAccountRaw recipient)
             (nftItemAddress nftItem) initNftTransferAmount
             (commentPayload w recipient) None ;;
   emulateMessageToWallet w (toBase64 w cell))%M.

(** The two amounts [sendNftTransfer] computes from the fee delta, named
    after its local variables; [min] is the protocol minimum.  The delta
    is a JavaScript number that [BigNumber] reads through its decimal
    text: the two definitions are the code's amounts for a delta that is a
    safe integer ([safeInteger] below), the range in which a number holds
    an integer exactly and its text is that integer. *)
Definition nftTransferAmount (min feeExtra : Z) : Z :=
  let amount := feeExtra * -1 + min in
  if amount <? min then min else amount.

Definition total (min feeExtra : Z) : Z :=
  nftTransferAmount min feeExtra + feeExtra * -1.

(** [BigInt(x.toString())] on a [BigNumber] holding an integer: from
    1e21 on [toString] writes exponential notation, which [BigInt] rejects
    with a SyntaxError, a FormatError of the taxonomy. *)
Definition bigNumberToBigInt (x : Z) : result Z :=
  if 10 ^ 21 <=? Z.abs x then Err FormatError else Ok x.

(** The body of [sendNftTransfer] with its constant [min] as a parameter. *)
Definition sendNftTransferMin (min : Z) (w : World)
    (walletState : WalletState) (recipient : TonRecipientData)
    (nftItem : NftItemRepr) (fee : MessageConsequences) (password : string)
  : M unit :=
  (checkServiceTimeOrDie w ;;
   mnemonic <- getWalletMnemonic w (publicKey walletState) password ;;
   keyPair <- mnemonicToPrivateKey w mnemonic ;;
   let amount := nftTransferAmount min (extra fee) in
   let total := total min (extra fee) in
   (if amount <=? 0 then throw (InvalidAmount amount) else ret tt) ;;
   ' (wallet, seqno) <- getWalletBalance w walletState ;;
   checkWalletBalanceOrDie total wallet ;;
   value <- lift (bigNumberToBigInt amount) ;;
   cell <- createNftTransfer w seqno walletState (toAccountRaw recipient)
             (nftItemAddress nftItem) value (commentPayload w recipient)
             (Some (secretKey keyPair)) ;;
   sendBlockchainMessage w (toBase64 w cell))%M.

(** [toNano('0.05')] *)
Definition minTransfer : Z := nanoOr0 "0.05".

Definition sendNftTransfer : World -> WalletState -> TonRecipientData ->
    NftItemRepr -> MessageConsequences -> string -> M unit :=
  sendNftTransferMin minTransfer.

Record SendRenewOptions : Type := mkSendRenew {
  srWalletState : WalletState;
  srNftAddress : string;
  srFee : MessageConsequences;
  srPassword : string;
  srAmount : Z
}.

Definition sendNftRenew (w : World) (options : SendRenewOptions) : M unit :=
  (' (seqno, keyPair) <- getKeyPairAndSeqno w (srWalletState options)
                           (srFee options) (srPassword options)
                           (srAmount options) ;;
   body <- lift (nftRenewBody None) ;;
   cell <- createTransferMessage w seqno (srWalletState options)
             (secretKey keyPair) (srNftAddress options) (srAmount options)
             body ;;
   sendBoc w (toBase64 w cell))%M.

Record EstimateRenewOptions : Type := mkEstimateRenew {
  erWalletState : WalletState;
  erNftAddress : string;
  erAmount : Z
}.

Definition estimateNftRenew (w : World) (options : EstimateRenewOptions)
  : M string :=
  (checkServiceTimeOrDie w ;;
   ' (wallet, seqno) <- getWalletBalance w (erWalletState options) ;;
   checkWalletPositiveBalanceOrDie wallet ;;
   body <- lift (nftRenewBody None) ;;
   cell <- createTransferMessage w seqno (erWalletState options)
             (Buffer_alloc 64) (erNftAddress options) (erAmount options)
             body ;;
   ret (toBase64 w cell))%M.

Record SendLinkOptions : Type := mkSendLink {
  slWalletState : WalletState;
  slNftAddress : string;
  slLinkToAddress : string;
  slFee : MessageConsequences;
  slPassword : string;
  slAmount : Z
}.

Definition sendNftLink (w : World) (options : SendLinkOptions) : M unit :=
  (' (seqno, keyPair) <- getKeyPairAndSeqno w (slWalletState options)
                           (slFee options) (slPassword options)
                           (slAmount options) ;;
   body <- lift (nftLinkBody w
                   (mkLinkParams None (slLinkToAddress options))) ;;
   cell <- createTransferMessage w seqno (slWalletState options)
             (secretKey keyPair) (slNftAddress options) (slAmount options)
             body ;;
   sendBoc w (toBase64 w cell))%M.

Record EstimateLinkOptions : Type := mkEstimateLink {
  elWalletState : WalletState;
  elNftAddress : string;
  elLinkToAddress : string;
  elAmount : Z
}.

Definition estimateNftLink (w : World) (options : EstimateLinkOptions)
  : M string :=
  (checkServiceTimeOrDie w ;;
   ' (wallet, seqno) <- getWalletBalance w (elWalletState options) ;;
   checkWalletPositiveBalanceOrDie wallet ;;
   body <- lift (nftLinkBody w
                   (mkLinkParams None (elLinkToAddress options))) ;;
   cell <- createTransferMessage w seqno (elWalletState options)
             (Buffer_alloc 64) (elNftAddress options) (elAmount options)
             body ;;
   ret (toBase64 w cell))%M.

(** ** Layouts and trace properties used in the statements *)

(** The bits [storeInt] writes for an in-range value. *)
Definition intBits (w : nat) (v : Z) : list bool :=
  match w with
  | O => []
  | S w' => (v <? 0) :: uintBits w' (if v <? 0 then 2 ^ Z.of_nat w' + v else v)
  end.

(** The 267 bits of a standard address. *)
Definition addressBits (a : Address) : list bool :=
  (uintBits 2 2 ++ uintBits 1 0 ++ intBits 8 (workChain a)
     ++ uintBits 256 (hash a))%list.

(** The bits of a coin amount. *)
Definition coinsBits (amount : Z) : list bool :=
  if amount =? 0 then uintBits 4 0
  else (uintBits 4 (sizeBytes amount)
          ++ uintBits (Z.to_nat (8 * sizeBytes amount)) amount)%list.

(** The presence bit and the reference list of a maybe-ref. *)
Definition maybeBit (c : option Cell) : list bool :=
  match c with Some _ => [true] | None => [false] end.

Definition maybeRefs (c : option Cell) : list Cell :=
  match c with Some c' => [c'] | None => [] end.

Definition validAddress (a : Address) : Prop :=
  -128 <= workChain a < 128.

Definition isServiceTimeCheck (e : Event) : bool :=
  match e with CheckServiceTime => true | _ => false end.

Definition isPositiveCheck (e : Event) : bool :=
  match e with CheckWalletPositiveBalance _ => true | _ => false end.

Definition isSufficiencyCheck (e : Event) : bool :=
  match e with CheckWalletBalance _ _ => true | _ => false end.

Definition isSecretAccess (e : Event) : bool :=
  match e with
  | GetWalletMnemonic _ _ | MnemonicToPrivateKey _ => true
  | _ => false
  end.

Definition isAssemble (e : Event) : bool :=
  match e with CreateTransferMessage _ _ _ _ _ _ => true | _ => false end.

Definition isEmulation (e : Event) : bool :=
  match e with EmulateMessageToWallet _ => true | _ => false end.

Definition isBroadcast (e : Event) : bool :=
  match e with SendBlockchainMessage _ | SendBoc _ => true | _ => false end.

(** Every call satisfying [Q] comes after some call satisfying [P]. *)
Definition precededBy (P Q : Event -> bool) (t : list Event) : Prop :=
  forall pre e post,
    t = (pre ++ e :: post)%list -> Q e = true -> existsb P pre = true.

(** The same, as a scan of the trace. *)
Fixpoint guardedFrom (P Q : Event -> bool) (seen : bool) (t : list Event)
  : bool :=
  match t with
  | [] => true
  | e :: t' => (if Q e then seen else true) && guardedFrom P Q (seen || P e) t'
  end.

(** No call of the trace satisfies [Q]. *)
Definition never (Q : Event -> bool) (t : list Event) : Prop :=
  forall e, In e t -> Q e = false.

(** ** A concrete world, for running the service *)

Definition demoWallet : WalletState := mkWalletState "pub" "0:wallet".
Definition demoRecipient : TonRecipientData :=
  mkRecipient "0:recipient" (Some "hello").
Definition demoNft : NftItemRepr := mkNftItem "0:nft".
Definition demoKey : Buffer := repeat Byte.x2a 64.

(** Every non-empty string parses, the password is "secret", the account
    holds [funds] with sequence number 7, and every endpoint accepts. *)
Definition demoWorld (funds : Z) : World :=
  {| parsedAddress := fun s =>
       if truthy s then Some (mkAddress 0 (Z.of_nat (String.length s)))
       else None;
     commentCell := fun s => mkCell (uintBits 32 0) [];
     dateNow := 1700000000000;
     serviceTimeOk := true;
     accountState := fun _ => Some (mkAccount funds, 7);
     walletMnemonic := fun _ pw =>
       if String.eqb pw "secret" then Some ["abandon"; "ability"] else None;
     deriveKeyPair := fun _ => mkKeyPair [] demoKey;
     transferMessage := fun seqno _ _ _ value body =>
       Some (mkCell (uintBits 32 seqno ++ coinsBits value)%list [body]);
     toBase64 := fun _ => "te6cc";
     emulateMessage := fun _ => Some (mkConsequences (-5000000));
     blockchainMessage := fun _ => true;
     bocEndpoint := fun _ => true |}.

Definition demoTransferParams (q : option Z) : NftTransferParams :=
  mkTransferParams q (mkAddress 0 11) (mkAddress (-1) 12) 1 None.

(** A send path: every submission to a broadcast endpoint comes after a
    sufficiency check, and a sufficiency check whose total exceeds the
    balance ends the run with InsufficientBalance and nothing broadcast. *)
Definition strictlyChecked {A : Type} (m : M A) : Prop :=
  precededBy isSufficiencyCheck isBroadcast (trace m)
  /\ (forall tot wallet,
        In (CheckWalletBalance tot wallet) (trace m) ->
        balance wallet < tot ->
        outcome m = Err InsufficientBalance /\ never isBroadcast (trace m))
  /\ (forall tot wallet,
        In (CheckWalletBalance tot wallet) (trace m) ->
        (exists e, In e (trace m) /\ isBroadcast e = true) ->
        tot <= balance wallet).

(** An estimate path: no sufficiency check and no broadcast at all, and
    the positive-balance check, which alone guards the balance, comes
    before the message is assembled or emulated and fails the run with
    EmptyBalance on a balance of at most 0. *)
Definition weaklyChecked {A : Type} (m : M A) : Prop :=
  never isSufficiencyCheck (trace m)
  /\ never isBroadcast (trace m)
  /\ precededBy isPositiveCheck isAssemble (trace m)
  /\ precededBy isPositiveCheck isEmulation (trace m)
  /\ (forall wallet,
        In (CheckWalletPositiveBalance wallet) (trace m) ->
        balance wallet <= 0 ->
        outcome m = Err EmptyBalance /\ never isAssemble (trace m)).

(** The discipline of an estimate entry point run in world [w] for the
    wallet [ws]. *)
Definition estimateDiscipline {A : Type} (w : World) (ws : WalletState)
    (m : M A) : Prop :=
  hd_error (trace m) = Some CheckServiceTime
  /\ precededBy isServiceTimeCheck isAssemble (trace m)
  /\ precededBy isPositiveCheck isAssemble (trace m)
  /\ (serviceTimeOk w = false ->
      m = ([CheckServiceTime], Err ServiceUnavailable))
  /\ (forall wallet seqno,
        serviceTimeOk w = true ->
        accountState w ws = Some (wallet, seqno) ->
        balance wallet <= 0 ->
        m = ([CheckServiceTime; GetWalletBalance ws;
              CheckWalletPositiveBalance wallet], Err EmptyBalance))
  /\ (forall seqno st key to value body,
        In (CreateTransferMessage seqno st key to value body) (trace m) ->
        key = Buffer_alloc 64)
  /\ never isSecretAccess (trace m).

(** An error of the encoders: a malformed address or a value out of
    range. *)
Definition encodingError (e : Error) : Prop :=
  e = FormatError \/ e = RangeError.

(** The bit strings the three encoders are expected to produce, field by
    field. *)
Definition transferBits (p : NftTransferParams) : list bool :=
  (uintBits 32 opTransfer ++ uintBits 64 (orZero (queryId p))
     ++ addressBits (newOwnerAddress p) ++ addressBits (responseAddress p)
     ++ [false] ++ coinsBits (forwardAmount p)
     ++ maybeBit (forwardPayload p))%list.

Definition renewBits (q : option Z) : list bool :=
  (uintBits 32 opChangeDnsRecord ++ uintBits 64 (orZero q)
     ++ uintBits 256 0)%list.

Definition linkBits (q : option Z) : list bool :=
  (uintBits 32 opChangeDnsRecord ++ uintBits 64 (orZero q)
     ++ uintBits 256 DNS_CATEGORY_WALLET)%list.

(** The sub-cell of a link record: marker, address, trailing zero byte. *)
Definition dnsAddressCell (a : Address) : Cell :=
  mkCell (uintBits 16 dnsAddressMarker ++ addressBits a ++ uintBits 8 0)%list
         [].

Definition fitsUint (w : nat) (v : Z) : Prop := 0 <= v < 2 ^ Z.of_nat w.

(** The builder [b] with bits [l] and references [r] appended. *)
Definition appended (b : Builder) (l : list bool) (r : list Cell) : Builder :=
  mkBuilder (bbits b ++ l) (brefs b ++ r).

(** ** Further notions used in the statements *)

(** [Number.isSafeInteger]: the integers a JavaScript number holds
    exactly and prints digit by digit. *)
Definition safeInteger (x : Z) : Prop := - (2 ^ 53 - 1) <= x <= 2 ^ 53 - 1.

(** The hash of an address is a 32-byte value. *)
Definition hashFits (a : Address) : Prop := 0 <= hash a < 2 ^ 256.

(** The inputs on which the builder accepts every field of a transfer
    body. *)
Definition transferInRange (p : NftTransferParams) : Prop :=
  fitsUint 64 (orZero (queryId p))
  /\ validAddress (newOwnerAddress p)
  /\ validAddress (responseAddress p)
  /\ 0 <= forwardAmount p < 2 ^ 120.

(** How many calls of a trace satisfy [Q]. *)
Definition countCalls (Q : Event -> bool) (t : list Event) : nat :=
  List.length (filter Q t).

(** A send entry point really runs the strict check.  Once the
    service-time check, the secret store and the balance query have
    answered, the trace holds a sufficiency check on the fetched wallet,
    and a total above the balance ends the run right at that check, with
    InsufficientBalance, after these five calls and no other.  And the
    entry point returns normally only after a broadcast. *)
Definition runsSufficiencyCheck {A : Type} (w : World) (ws : WalletState)
    (pw : string) (m : M A) : Prop :=
  (forall words wallet seqno,
     serviceTimeOk w = true ->
     walletMnemonic w (publicKey ws) pw = Some words ->
     accountState w ws = Some (wallet, seqno) ->
     exists tot,
       In (CheckWalletBalance tot wallet) (trace m)
       /\ (balance wallet < tot ->
           m = ([CheckServiceTime; GetWalletMnemonic (publicKey ws) pw;
                 MnemonicToPrivateKey words; GetWalletBalance ws;
                 CheckWalletBalance tot wallet], Err InsufficientBalance)))
  /\ (forall a, outcome m = Ok a ->
                exists e, In e (trace m) /\ isBroadcast e = true).

(** An estimate entry point really runs the positive-balance check, and
    only that one.  Once the service-time check and the balance query have
    answered, the trace holds a positive-balance check on the fetched
    wallet; a balance of at most 0 ends the run right there with
    EmptyBalance; and any positive balance, however small, passes: the run
    then fails neither with EmptyBalance nor with InsufficientBalance. *)
Definition runsPositiveCheckOnly {A : Type} (w : World) (ws : WalletState)
    (m : M A) : Prop :=
  forall wallet seqno,
    serviceTimeOk w = true ->
    accountState w ws = Some (wallet, seqno) ->
    In (CheckWalletPositiveBalance wallet) (trace m)
    /\ (balance wallet <= 0 ->
        m = ([CheckServiceTime; GetWalletBalance ws;
              CheckWalletPositiveBalance wallet], Err EmptyBalance))
    /\ (0 < balance wallet ->
        outcome m <> Err EmptyBalance
        /\ outcome m <> Err InsufficientBalance).

(** An estimate entry point returns normally only after it has assembled
    a message for the wallet with the placeholder key. *)
Definition returnsAfterPlaceholderAssembly {A : Type} (ws : WalletState)
    (m : M A) : Prop :=
  forall a,
    outcome m = Ok a ->
    exists seqno to value body,
      In (CreateTransferMessage seqno ws (Buffer_alloc 64) to value body)
         (trace m).

(** * Properties *)

(** ** Bit strings *)

Lemma uintBits_length (w : nat) (v : Z) : List.length (uintBits w v) = w.
Proof.
  induction w as [|w IH]; simpl; [reflexivity | now rewrite IH].
Qed.

Lemma low_bits_step (v : Z) (n : Z) :
  0 <= n ->
  v mod 2 ^ (n + 1) = (if Z.testbit v n then 1 else 0) * 2 ^ n + v mod 2 ^ n.
Proof.
  intros Hn.
  rewrite Z.pow_add_r, Z.pow_1_r by lia.
  assert (Hpos : 0 < 2 ^ n) by (apply Z.pow_pos_nonneg; lia).
  rewrite Z.rem_mul_r by lia.
  pose proof (Z.testbit_spec' v n Hn) as Hb.
  destruct (Z.testbit v n); simpl Z.b2z in Hb; rewrite <- Hb; lia.
Qed.

Lemma fold_uintBits (w : nat) (v acc : Z) :
  fold_left (fun a (b : bool) => 2 * a + (if b then 1 else 0))
            (uintBits w v) acc
  = acc * 2 ^ Z.of_nat w + v mod 2 ^ Z.of_nat w.
Proof.
  revert acc; induction w as [|w IH]; intros acc.
  - simpl. rewrite Z.mod_1_r. lia.
  - cbn [uintBits fold_left]. rewrite IH.
    replace (Z.of_nat (S w)) with (Z.of_nat w + 1) by lia.
    rewrite (low_bits_step v (Z.of_nat w)) by lia.
    rewrite Z.pow_add_r, Z.pow_1_r by lia.
    destruct (Z.testbit v (Z.of_nat w)); lia.
Qed.

(** Reading back what [storeUint] wrote. *)
Lemma bitsToZ_uintBits (w : nat) (v : Z) :
  0 <= v < 2 ^ Z.of_nat w -> bitsToZ (uintBits w v) = v.
Proof.
  intros Hv. unfold bitsToZ. rewrite fold_uintBits.
  rewrite Z.mod_small by exact Hv. lia.
Qed.

Lemma firstn_exact {A : Type} (l r : list A) (n : nat) :
  List.length l = n -> firstn n (l ++ r) = l.
Proof.
  intros <-. rewrite firstn_app, Nat.sub_diag, firstn_all. simpl.
  apply app_nil_r.
Qed.

Lemma skipn_exact {A : Type} (l r : list A) (n : nat) :
  List.length l = n -> skipn n (l ++ r) = r.
Proof.
  intros <-. rewrite skipn_app, Nat.sub_diag, skipn_all. reflexivity.
Qed.

(** A body that starts with a 32-bit tag and a 64-bit query id reads back
    as that tag and that query id. *)
Lemma head_fields (op q : Z) (rest : list bool) (refs : list Cell) :
  0 <= op < 2 ^ 32 -> 0 <= q < 2 ^ 64 ->
  cellOp (mkCell (uintBits 32 op ++ uintBits 64 q ++ rest) refs) = op
  /\ cellQueryId (mkCell (uintBits 32 op ++ uintBits 64 q ++ rest) refs) = q.
Proof.
  intros Hop Hq. unfold cellOp, cellQueryId, cellBits. split.
  - rewrite firstn_exact by apply uintBits_length.
    now apply bitsToZ_uintBits.
  - rewrite skipn_exact by apply uintBits_length.
    rewrite firstn_exact by apply uintBits_length.
    now apply bitsToZ_uintBits.
Qed.

(** ** Builder steps *)

Lemma rbind_Ok {A B : Type} (r : result A) (k : A -> result B) (y : B) :
  rbind r k = Ok y -> exists x, r = Ok x /\ k x = Ok y.
Proof.
  destruct r as [x|e]; simpl; intros H; [eauto | discriminate].
Qed.

Lemma appended_nil (b : Builder) (l : list bool) :
  mkBuilder (bbits b ++ l) (brefs b) = appended b l [].
Proof.
  unfold appended. now rewrite app_nil_r.
Qed.

Lemma appended_appended (b : Builder) (l l' : list bool) (r r' : list Cell) :
  appended (appended b l r) l' r' = appended b (l ++ l') (r ++ r').
Proof.
  unfold appended; simpl. now rewrite <- !app_assoc.
Qed.

Lemma writeBits_Ok (l : list bool) (b b' : Builder) :
  writeBits l b = Ok b' ->
  b' = appended b l []
  /\ (List.length (bbits b) + List.length l <= maxBits)%nat.
Proof.
  unfold writeBits.
  destruct (Nat.leb_spec (List.length (bbits b) + List.length l) maxBits)
    as [Hle|Hgt]; intros Heq; inversion Heq; subst.
  split; [apply appended_nil | assumption].
Qed.

Lemma writeBits_fits (l : list bool) (b : Builder) :
  (List.length (bbits b) + List.length l <= maxBits)%nat ->
  writeBits l b = Ok (appended b l []).
Proof.
  intros H. unfold writeBits.
  apply Nat.leb_le in H. rewrite H. now rewrite appended_nil.
Qed.

Lemma storeUint_Ok (v : Z) (w : nat) (b b' : Builder) :
  storeUint v w b = Ok b' ->
  b' = appended b (uintBits w v) [] /\ 0 <= v < 2 ^ Z.of_nat w.
Proof.
  unfold storeUint.
  destruct (Z.leb_spec 0 v); destruct (Z.ltb_spec v (2 ^ Z.of_nat w));
    simpl; intros Heq; try discriminate.
  apply writeBits_Ok in Heq. split; [apply Heq | lia].
Qed.

Lemma storeUint_fits (v : Z) (w : nat) (b : Builder) :
  0 <= v < 2 ^ Z.of_nat w ->
  (List.length (bbits b) + w <= maxBits)%nat ->
  storeUint v w b = Ok (appended b (uintBits w v) []).
Proof.
  intros Hv Hw. unfold storeUint.
  destruct (Z.leb_spec 0 v); destruct (Z.ltb_spec v (2 ^ Z.of_nat w));
    try lia.
  simpl. apply writeBits_fits. now rewrite uintBits_length.
Qed.

Lemma storeInt_Ok (v : Z) (w : nat) (b b' : Builder) :
  storeInt v w b = Ok b' -> b' = appended b (intBits w v) [].
Proof.
  unfold storeInt, intBits. destruct w as [|w']; [discriminate|].
  destruct (_ && _); [|discriminate].
  destruct (v <? 0); intros H; apply writeBits_Ok in H; apply H.
Qed.

Lemma intBits_length (w : nat) (v : Z) : List.length (intBits w v) = w.
Proof.
  destruct w; simpl; [reflexivity | now rewrite uintBits_length].
Qed.

Lemma storeInt_fits (v : Z) (w : nat) (b : Builder) :
  - 2 ^ Z.of_nat w <= v < 2 ^ Z.of_nat w ->
  (List.length (bbits b) + S w <= maxBits)%nat ->
  storeInt v (S w) b = Ok (appended b (intBits (S w) v) []).
Proof.
  intros Hv Hw. unfold storeInt, intBits.
  destruct (Z.leb_spec (- 2 ^ Z.of_nat w) v);
    destruct (Z.ltb_spec v (2 ^ Z.of_nat w)); try lia.
  simpl andb. cbv iota.
  destruct (v <? 0); apply writeBits_fits; simpl;
    rewrite uintBits_length; lia.
Qed.

Lemma addressBits_length (a : Address) :
  List.length (addressBits a) = 267%nat.
Proof.
  unfold addressBits.
  rewrite !length_app, !uintBits_length, intBits_length. reflexivity.
Qed.

Lemma storeAddress_Ok (a : Address) (b b' : Builder) :
  storeAddress a b = Ok b' -> b' = appended b (addressBits a) [].
Proof.
  unfold storeAddress, storeBuffer32. intros H.
  apply rbind_Ok in H as (b3 & H' & H4).
  apply rbind_Ok in H' as (b2 & H'' & H3).
  apply rbind_Ok in H'' as (b1 & H1 & H2).
  apply storeUint_Ok in H1 as [-> _].
  apply storeUint_Ok in H2 as [-> _].
  apply storeInt_Ok in H3 as ->.
  apply writeBits_Ok in H4 as [-> _].
  rewrite !appended_appended. reflexivity.
Qed.

Lemma appended_length (b : Builder) (l : list bool) (r : list Cell) :
  List.length (bbits (appended b l r))
  = (List.length (bbits b) + List.length l)%nat.
Proof.
  unfold appended; simpl. apply length_app.
Qed.

Lemma storeAddress_fits (a : Address) (b : Builder) :
  validAddress a ->
  (List.length (bbits b) + 267 <= maxBits)%nat ->
  storeAddress a b = Ok (appended b (addressBits a) []).
Proof.
  intros Ha Hlen. unfold storeAddress, storeBuffer32, validAddress in *.
  rewrite storeUint_fits by (try (split; [lia | reflexivity]); lia).
  cbn [rbind].
  rewrite storeUint_fits
    by (try (split; [lia | reflexivity]);
        rewrite appended_length, uintBits_length; lia).
  cbn [rbind].
  rewrite (storeInt_fits (workChain a) 7)
    by (try (change (2 ^ Z.of_nat 7) with 128; lia);
        rewrite !appended_length, !uintBits_length; lia).
  cbn [rbind].
  rewrite writeBits_fits
    by (rewrite !appended_length, !uintBits_length, intBits_length; lia).
  rewrite !appended_appended. reflexivity.
Qed.

Lemma sizeBytes_bounds (v : Z) :
  0 < v < 2 ^ 120 ->
  1 <= sizeBytes v <= 15 /\ v < 2 ^ (8 * sizeBytes v).
Proof.
  intros [Hpos Hlt]. unfold sizeBytes.
  pose proof (Z.log2_nonneg v) as Hl0.
  assert (Hl : Z.log2 v < 120) by (apply Z.log2_lt_pow2; lia).
  pose proof (Z.log2_spec v Hpos) as [_ Hup].
  assert (Hdiv : Z.log2 v + 1 <= 8 * ((Z.log2 v + 1 + 7) / 8)
                 /\ 1 <= (Z.log2 v + 1 + 7) / 8 <= 15).
  { pose proof (Z.div_mod (Z.log2 v + 1 + 7) 8 ltac:(lia)) as Hdm.
    pose proof (Z.mod_pos_bound (Z.log2 v + 1 + 7) 8 ltac:(lia)) as Hmb.
    lia. }
  split; [apply Hdiv|].
  eapply Z.lt_le_trans; [exact Hup|].
  apply Z.pow_le_mono_r; lia.
Qed.

Lemma storeCoins_Ok (amount : Z) (b b' : Builder) :
  storeCoins amount b = Ok b' -> b' = appended b (coinsBits amount) [].
Proof.
  unfold storeCoins, coinsBits.
  destruct (amount <? 0); [discriminate|].
  destruct (amount =? 0); intros Heq.
  - apply storeUint_Ok in Heq. apply Heq.
  - apply rbind_Ok in Heq as (b1 & H1 & H2).
    apply storeUint_Ok in H1 as [-> _].
    apply storeUint_Ok in H2 as [-> _].
    now rewrite appended_appended.
Qed.

Lemma coinsBits_length (amount : Z) :
  0 <= amount < 2 ^ 120 -> (List.length (coinsBits amount) <= 124)%nat.
Proof.
  intros Ha. unfold coinsBits.
  destruct (Z.eqb_spec amount 0) as [->|Hnz].
  - rewrite uintBits_length. lia.
  - destruct (sizeBytes_bounds amount ltac:(lia)) as [Hs _].
    rewrite length_app, !uintBits_length. lia.
Qed.

Lemma storeCoins_fits (amount : Z) (b : Builder) :
  0 <= amount < 2 ^ 120 ->
  (List.length (bbits b) + 124 <= maxBits)%nat ->
  storeCoins amount b = Ok (appended b (coinsBits amount) []).
Proof.
  intros Ha Hlen. unfold storeCoins, coinsBits.
  destruct (Z.ltb_spec amount 0); [lia|].
  destruct (Z.eqb_spec amount 0) as [->|Hnz].
  - apply storeUint_fits; [split; [lia | reflexivity] | lia].
  - destruct (sizeBytes_bounds amount ltac:(lia)) as [Hs Hup].
    rewrite storeUint_fits
      by (try (change (2 ^ Z.of_nat 4) with 16; lia); lia).
    cbn [rbind].
    rewrite storeUint_fits.
    + now rewrite appended_appended.
    + rewrite Z2Nat.id by lia. lia.
    + rewrite appended_length, uintBits_length. lia.
Qed.

Lemma storeRef_Ok (c : Cell) (b b' : Builder) :
  storeRef c b = Ok b' ->
  b' = appended b [] [c] /\ (List.length (brefs b) < maxRefs)%nat.
Proof.
  unfold storeRef.
  destruct (Nat.ltb_spec (List.length (brefs b)) maxRefs);
    intros Heq; inversion Heq; subst.
  split; [|assumption]. unfold appended. now rewrite app_nil_r.
Qed.

Lemma storeRef_fits (c : Cell) (b : Builder) :
  (List.length (brefs b) < maxRefs)%nat ->
  storeRef c b = Ok (appended b [] [c]).
Proof.
  intros Hlt. unfold storeRef. apply Nat.ltb_lt in Hlt. rewrite Hlt.
  unfold appended. now rewrite app_nil_r.
Qed.

Lemma storeMaybeRef_Ok (c : option Cell) (b b' : Builder) :
  storeMaybeRef c b = Ok b' -> b' = appended b (maybeBit c) (maybeRefs c).
Proof.
  unfold storeMaybeRef, storeBit. destruct c as [c'|]; simpl; intros Heq.
  - apply rbind_Ok in Heq as (b1 & H1 & H2).
    apply writeBits_Ok in H1 as [-> _].
    apply storeRef_Ok in H2 as [-> _].
    now rewrite appended_appended.
  - apply writeBits_Ok in Heq. apply Heq.
Qed.

Lemma storeMaybeRef_fits (c : option Cell) (b : Builder) :
  (List.length (bbits b) + 1 <= maxBits)%nat ->
  (List.length (brefs b) < maxRefs)%nat ->
  storeMaybeRef c b = Ok (appended b (maybeBit c) (maybeRefs c)).
Proof.
  intros Hb Hr. unfold storeMaybeRef, storeBit. destruct c as [c'|]; simpl.
  - rewrite writeBits_fits by (simpl; lia). cbn [rbind].
    rewrite storeRef_fits by (simpl; rewrite app_nil_r; exact Hr).
    now rewrite appended_appended.
  - apply writeBits_fits. simpl; lia.
Qed.

Lemma storeBit_Ok (x : bool) (b b' : Builder) :
  storeBit x b = Ok b' -> b' = appended b [x] [].
Proof.
  unfold storeBit. intros Heq. apply writeBits_Ok in Heq. apply Heq.
Qed.

Lemma beginCell_appended (l : list bool) (r : list Cell) :
  endCell (appended beginCell l r) = mkCell l r.
Proof. reflexivity. Qed.

(** Taking a successful fluent chain apart, one store at a time. *)
Ltac chain :=
  repeat match goal with
    | H : rbind _ _ = Ok _ |- _ => apply rbind_Ok in H as (? & ? & ?)
    | H : finish _ = Ok _ |- _ => unfold finish in H; inversion H; clear H
    | H : storeUint _ _ _ = Ok _ |- _ => apply storeUint_Ok in H as [-> _]
    | H : storeAddress _ _ = Ok _ |- _ => apply storeAddress_Ok in H as ->
    | H : storeCoins _ _ = Ok _ |- _ => apply storeCoins_Ok in H as ->
    | H : storeMaybeRef _ _ = Ok _ |- _ => apply storeMaybeRef_Ok in H as ->
    | H : storeBit _ _ = Ok _ |- _ => apply storeBit_Ok in H as ->
    | H : storeRef _ _ = Ok _ |- _ => apply storeRef_Ok in H as [-> _]
    end.

Ltac fits_side :=
  first [ assumption
        | split; [now vm_compute | reflexivity]
        | rewrite ?appended_length, ?uintBits_length, ?addressBits_length;
          cbn [List.length bbits brefs beginCell];
          unfold maxBits, maxRefs; lia ].

(** ** The encoders *)

Lemma nftTransferBody_Ok (p : NftTransferParams) (c : Cell) :
  nftTransferBody p = Ok c ->
  c = mkCell (transferBits p) (maybeRefs (forwardPayload p)).
Proof.
  unfold nftTransferBody. intros H. chain. subst c.
  rewrite !appended_appended, beginCell_appended.
  unfold transferBits. simpl app. rewrite <- ?app_assoc. reflexivity.
Qed.

Lemma nftTransferBody_fits (p : NftTransferParams) :
  fitsUint 64 (orZero (queryId p)) ->
  validAddress (newOwnerAddress p) -> validAddress (responseAddress p) ->
  0 <= forwardAmount p < 2 ^ 120 ->
  nftTransferBody p
  = Ok (mkCell (transferBits p) (maybeRefs (forwardPayload p))).
Proof.
  intros Hq Ho Hr Ha. unfold nftTransferBody, fitsUint in *.
  pose proof (coinsBits_length _ Ha) as Hc.
  rewrite storeUint_fits by fits_side. cbn [rbind].
  rewrite storeUint_fits by fits_side. cbn [rbind].
  rewrite storeAddress_fits by fits_side. cbn [rbind].
  rewrite storeAddress_fits by fits_side. cbn [rbind].
  unfold storeBit. rewrite writeBits_fits by fits_side. cbn [rbind].
  rewrite storeCoins_fits by fits_side. cbn [rbind].
  rewrite storeMaybeRef_fits by (try fits_side; cbn; unfold maxRefs; lia).
  cbn [rbind]. unfold finish.
  rewrite !appended_appended, beginCell_appended.
  unfold transferBits. simpl app. rewrite <- ?app_assoc. reflexivity.
Qed.

Lemma nftRenewBody_eq (params : option NftRenewParams) :
  let q := match params with Some p => renewQueryId p | None => None end in
  (fitsUint 64 (orZero q) -> nftRenewBody params = Ok (mkCell (renewBits q) []))
  /\ (forall c, nftRenewBody params = Ok c -> c = mkCell (renewBits q) []).
Proof.
  intros q. unfold nftRenewBody, fitsUint. fold q. split.
  - intros Hq.
    rewrite storeUint_fits by fits_side. cbn [rbind].
    rewrite storeUint_fits by fits_side. cbn [rbind].
    rewrite storeUint_fits by fits_side. cbn [rbind]. unfold finish.
    rewrite !appended_appended, beginCell_appended. reflexivity.
  - intros c H. chain. subst c.
    rewrite !appended_appended, beginCell_appended. reflexivity.
Qed.

Lemma addressToDNSAddressFormat_Ok (w : World) (s : string) (b : Builder) :
  addressToDNSAddressFormat w s = Ok b ->
  exists a, parsedAddress w s = Some a /\ endCell b = dnsAddressCell a.
Proof.
  unfold addressToDNSAddressFormat, Address_parse. intros H.
  apply rbind_Ok in H as (b0 & H0 & H).
  apply rbind_Ok in H as (a & Hp & H).
  destruct (parsedAddress w s) as [a'|]; [|discriminate].
  inversion Hp; subst a'. exists a. split; [reflexivity|].
  chain. rewrite !appended_appended, beginCell_appended.
  unfold dnsAddressCell. simpl app. rewrite <- ?app_assoc. reflexivity.
Qed.

Lemma addressToDNSAddressFormat_fits (w : World) (s : string) (a : Address) :
  parsedAddress w s = Some a -> validAddress a ->
  exists b, addressToDNSAddressFormat w s = Ok b
            /\ endCell b = dnsAddressCell a.
Proof.
  intros Hp Ha. unfold addressToDNSAddressFormat, Address_parse.
  rewrite storeUint_fits by fits_side. cbn [rbind].
  rewrite Hp. cbn [orFail rbind].
  rewrite storeAddress_fits by fits_side. cbn [rbind].
  rewrite storeUint_fits by fits_side.
  eexists; split; [reflexivity|].
  rewrite !appended_appended, beginCell_appended.
  unfold dnsAddressCell. simpl app. rewrite <- ?app_assoc. reflexivity.
Qed.

Lemma nftLinkBody_Ok (w : World) (p : NftLinkParams) (c : Cell) :
  nftLinkBody w p = Ok c ->
  cellBits c = linkBits (linkQueryId p)
  /\ (if truthy (linkToAddress p)
      then exists a, parsedAddress w (linkToAddress p) = Some a
                     /\ cellRefs c = [dnsAddressCell a]
      else cellRefs c = []).
Proof.
  unfold nftLinkBody. intros H.
  apply rbind_Ok in H as (b0 & H0 & H).
  apply rbind_Ok in H as (b1 & H1 & H).
  chain. subst c.
  rewrite !appended_appended in H1.
  destruct (truthy (linkToAddress p)).
  - apply rbind_Ok in H1 as (sub & Hsub & Href).
    apply addressToDNSAddressFormat_Ok in Hsub as (a & Hp & Hcell).
    apply storeRef_Ok in Href as [-> _].
    rewrite appended_appended. split; [reflexivity|].
    exists a. split; [exact Hp|]. simpl. now rewrite Hcell.
  - inversion H1; subst b1. split; reflexivity.
Qed.

Lemma nftLinkBody_fits_empty (w : World) (q : option Z) :
  fitsUint 64 (orZero q) ->
  nftLinkBody w (mkLinkParams q "") = Ok (mkCell (linkBits q) []).
Proof.
  intros Hq. unfold nftLinkBody, fitsUint in *. cbn [linkQueryId linkToAddress].
  rewrite storeUint_fits by fits_side. cbn [rbind].
  rewrite storeUint_fits by fits_side. cbn [rbind].
  rewrite storeUint_fits by fits_side. cbn [rbind truthy]. unfold finish.
  rewrite !appended_appended, beginCell_appended. reflexivity.
Qed.

Lemma nftLinkBody_fits_target (w : World) (p : NftLinkParams) (a : Address) :
  fitsUint 64 (orZero (linkQueryId p)) ->
  truthy (linkToAddress p) = true ->
  parsedAddress w (linkToAddress p) = Some a -> validAddress a ->
  nftLinkBody w p = Ok (mkCell (linkBits (linkQueryId p)) [dnsAddressCell a]).
Proof.
  intros Hq Ht Hp Ha. unfold nftLinkBody, fitsUint in *.
  rewrite storeUint_fits by fits_side. cbn [rbind].
  rewrite storeUint_fits by fits_side. cbn [rbind].
  rewrite storeUint_fits by fits_side. cbn [rbind]. rewrite Ht.
  destruct (addressToDNSAddressFormat_fits w _ a Hp Ha) as (b & -> & Hcell).
  cbn [rbind]. rewrite storeRef_fits by (simpl; unfold maxRefs; lia).
  cbn [rbind]. unfold finish. rewrite Hcell.
  rewrite !appended_appended, beginCell_appended. reflexivity.
Qed.

Lemma head_store (op q : Z) (b : Builder) :
  rbind (storeUint op 32 beginCell) (storeUint q 64) = Ok b ->
  fitsUint 32 op /\ fitsUint 64 q.
Proof.
  intros H. apply rbind_Ok in H as (b0 & H0 & H1).
  apply storeUint_Ok in H0 as [_ H0]. apply storeUint_Ok in H1 as [_ H1].
  split; assumption.
Qed.

Ltac head_range :=
  repeat match goal with
    | H : rbind (rbind _ _) _ = Ok _ |- _ =>
        apply rbind_Ok in H as (? & ? & ?)
    end;
  match goal with
  | H : rbind (storeUint _ 32 beginCell) (storeUint _ 64) = Ok _ |- _ =>
      apply head_store in H; destruct H
  end.

Lemma nftTransferBody_head (p : NftTransferParams) (c : Cell) :
  nftTransferBody p = Ok c ->
  cellOp c = opTransfer /\ cellQueryId c = orZero (queryId p).
Proof.
  intros H. pose proof (nftTransferBody_Ok p c H) as ->.
  unfold nftTransferBody in H. head_range.
  apply head_fields; assumption.
Qed.

Lemma nftRenewBody_head (params : option NftRenewParams) (c : Cell) :
  nftRenewBody params = Ok c ->
  cellOp c = opChangeDnsRecord
  /\ cellQueryId c
     = orZero (match params with Some p => renewQueryId p | None => None end).
Proof.
  intros H. pose proof (proj2 (nftRenewBody_eq params) c H) as ->.
  unfold nftRenewBody in H. head_range.
  apply head_fields; assumption.
Qed.

Lemma nftLinkBody_head (w : World) (p : NftLinkParams) (c : Cell) :
  nftLinkBody w p = Ok c ->
  cellOp c = opChangeDnsRecord /\ cellQueryId c = orZero (linkQueryId p).
Proof.
  intros H. destruct (nftLinkBody_Ok w p c H) as [Hbits _].
  destruct c as [bits refs]. simpl in Hbits. subst bits.
  unfold nftLinkBody in H. head_range.
  apply head_fields; assumption.
Qed.

(** C7.  Whenever the transfer encoder returns a cell, its bits are, in
    order, the 32-bit tag 0x5fcc3d14, the 64-bit query id, the new-owner
    address, the response address, one false bit, the coin amount and the
    presence bit of the forward payload, and its references are the forward
    payload alone when there is one and none otherwise; read back, the cell
    starts with that tag and that query id.  The encoder does return a cell
    whenever the query id fits 64 bits, both workchains fit a signed byte
    and the amount fits 120 bits. *)
Theorem nftTransferBody_cell_layout (p : NftTransferParams) :
  (forall c, nftTransferBody p = Ok c ->
     cellBits c
     = (uintBits 32 0x5fcc3d14 ++ uintBits 64 (orZero (queryId p))
          ++ addressBits (newOwnerAddress p)
          ++ addressBits (responseAddress p)
          ++ [false] ++ coinsBits (forwardAmount p)
          ++ match forwardPayload p with
             | Some _ => [true]
             | None => [false]
             end)%list
     /\ cellRefs c = match forwardPayload p with
                     | Some payload => [payload]
                     | None => []
                     end
     /\ cellOp c = 0x5fcc3d14
     /\ cellQueryId c = orZero (queryId p))
  /\ (fitsUint 64 (orZero (queryId p)) ->
      validAddress (newOwnerAddress p) ->
      validAddress (responseAddress p) ->
      0 <= forwardAmount p < 2 ^ 120 ->
      exists c, nftTransferBody p = Ok c).
Proof.
  split.
  - intros c H. destruct (nftTransferBody_head p c H) as [Hop Hq].
    pose proof (nftTransferBody_Ok p c H) as ->.
    repeat split; try assumption.
  - intros Hq Ho Hr Ha. eexists. now apply nftTransferBody_fits.
Qed.

Lemma nftTransferBody_cell_layout_witness :
  exists c, nftTransferBody (demoTransferParams (Some 5)) = Ok c
            /\ cellRefs c = [] /\ cellQueryId c = 5.
Proof.
  destruct (nftTransferBody_cell_layout (demoTransferParams (Some 5)))
    as [Hshape Hex].
  destruct Hex as [c Hc].
  - split; [now vm_compute | reflexivity].
  - unfold validAddress; simpl; lia.
  - unfold validAddress; simpl; lia.
  - split; [now vm_compute | reflexivity].
  - exists c. split; [exact Hc|].
    destruct (Hshape c Hc) as (_ & Hrefs & _ & Hq).
    split; [exact Hrefs | exact Hq].
Defined.

(** C8.  Whenever the link encoder returns a cell, its bits are the 32-bit
    record-change tag, the 64-bit query id and the 256-bit wallet category
    constant; the cell has a reference if and only if the target address
    string is non-empty, none at all for the empty string, and for a
    non-empty one exactly the sub-cell made of the 16-bit marker 0x9fd3,
    the parsed target address and eight zero bits.  The encoder returns a
    cell for an empty target, and for a non-empty target that parses. *)
Theorem nftLinkBody_cell_layout (w : World) (p : NftLinkParams) :
  (forall c, nftLinkBody w p = Ok c ->
     cellBits c
     = (uintBits 32 0x4eb1f0f9 ++ uintBits 64 (orZero (linkQueryId p))
          ++ uintBits 256 DNS_CATEGORY_WALLET)%list
     /\ (cellRefs c <> [] <-> linkToAddress p <> "")
     /\ (linkToAddress p = "" -> cellRefs c = [])
     /\ (linkToAddress p <> "" ->
         exists a, parsedAddress w (linkToAddress p) = Some a
                   /\ cellRefs c
                      = [mkCell (uintBits 16 0x9fd3 ++ addressBits a
                                   ++ uintBits 8 0)%list []]))
  /\ (fitsUint 64 (orZero (linkQueryId p)) ->
      linkToAddress p = "" ->
      exists c, nftLinkBody w p = Ok c /\ cellRefs c = [])
  /\ (fitsUint 64 (orZero (linkQueryId p)) ->
      linkToAddress p <> "" ->
      forall a, parsedAddress w (linkToAddress p) = Some a ->
                validAddress a ->
                exists c, nftLinkBody w p = Ok c).
Proof.
  split; [|split].
  - intros c H. destruct (nftLinkBody_Ok w p c H) as [Hbits Hrefs].
    split; [exact Hbits|].
    destruct (linkToAddress p) as [|ch rest]; simpl in Hrefs.
    + split; [|split].
      * split; intros Hne; now elim Hne.
      * intros _. exact Hrefs.
      * intros Hne. now elim Hne.
    + destruct Hrefs as (a & Hp & Hr). split; [|split].
      * split; intros _; [discriminate | rewrite Hr; discriminate].
      * discriminate.
      * intros _. exists a. split; [exact Hp | exact Hr].
  - intros Hq He. destruct p as [q s]. simpl in *. subst s.
    eexists. split; [now apply nftLinkBody_fits_empty | reflexivity].
  - intros Hq Hne a Hp Ha. eexists.
    apply (nftLinkBody_fits_target w p a); try assumption.
    destruct (linkToAddress p); [now elim Hne | reflexivity].
Qed.

Lemma nftLinkBody_cell_layout_witness :
  (exists c, nftLinkBody (demoWorld 100) (mkLinkParams None "") = Ok c
             /\ cellRefs c = [])
  /\ (exists c, nftLinkBody (demoWorld 100) (mkLinkParams None "0:abc") = Ok c
                /\ cellRefs c <> []).
Proof.
  split.
  - apply (nftLinkBody_cell_layout (demoWorld 100) (mkLinkParams None ""));
      [split; [now vm_compute | reflexivity] | reflexivity].
  - destruct (nftLinkBody_cell_layout (demoWorld 100)
                (mkLinkParams None "0:abc")) as (Hshape & _ & Hex).
    destruct (Hex ltac:(split; [now vm_compute | reflexivity])
                  ltac:(discriminate) (mkAddress 0 5) eq_refl
                  ltac:(unfold validAddress; simpl; lia)) as [c Hc].
    exists c. split; [exact Hc|].
    apply (Hshape c Hc). discriminate.
Defined.

(** C10.  For each of the three encoders an explicit query id of 0 gives
    exactly the result of an omitted query id; for the renew encoder this
    is also the result of omitting the parameter object altogether, and it
    is a cell. *)
Theorem zero_queryId_is_unset :
  (forall owner response amount payload,
     nftTransferBody (mkTransferParams (Some 0) owner response amount payload)
     = nftTransferBody (mkTransferParams None owner response amount payload))
  /\ nftRenewBody (Some (mkRenewParams (Some 0)))
     = nftRenewBody (Some (mkRenewParams None))
  /\ nftRenewBody (Some (mkRenewParams (Some 0))) = nftRenewBody None
  /\ (exists c, nftRenewBody None = Ok c)
  /\ (forall w target,
        nftLinkBody w (mkLinkParams (Some 0) target)
        = nftLinkBody w (mkLinkParams None target)).
Proof.
  split; [reflexivity|]. split; [reflexivity|]. split; [reflexivity|].
  split; [|reflexivity].
  eexists. apply (proj1 (nftRenewBody_eq None)).
  split; [now vm_compute | reflexivity].
Qed.

(** ** Traces *)

Lemma guardedFrom_sound (P Q : Event -> bool) (t : list Event) :
  forall seen, guardedFrom P Q seen t = true ->
  forall pre e post, t = (pre ++ e :: post)%list -> Q e = true ->
  seen || existsb P pre = true.
Proof.
  induction t as [|x t IH]; intros seen Hg pre e post Heq HQ.
  - destruct pre; discriminate.
  - simpl in Hg. apply andb_prop in Hg as [Hhead Htail].
    destruct pre as [|y pre]; simpl in Heq; inversion Heq; subst.
    + rewrite HQ in Hhead. rewrite Hhead. reflexivity.
    + specialize (IH _ Htail pre e post eq_refl HQ).
      simpl. now rewrite orb_assoc.
Qed.

Lemma guarded_precededBy (P Q : Event -> bool) (t : list Event) :
  guardedFrom P Q false t = true -> precededBy P Q t.
Proof.
  intros Hg pre e post Heq HQ.
  apply (guardedFrom_sound P Q t false Hg pre e post Heq HQ).
Qed.

Lemma forallb_never (Q : Event -> bool) (t : list Event) :
  forallb (fun e => negb (Q e)) t = true -> never Q t.
Proof.
  intros H e He. rewrite forallb_forall in H.
  specialize (H e He). now destruct (Q e).
Qed.

(** ** The monad *)

Lemma bind_call_Ok {A B : Type} (e : Event) (a : A) (k : A -> M B) :
  bind (call e (Ok a)) k = (e :: trace (k a), outcome (k a)).
Proof. unfold bind, call, trace, outcome. now destruct (k a). Qed.

Lemma bind_call_Err {A B : Type} (e : Event) (x : Error) (k : A -> M B) :
  bind (call e (Err x)) k = ([e], Err x).
Proof. reflexivity. Qed.

Lemma bind_lift_Ok {A B : Type} (a : A) (k : A -> M B) :
  bind (lift (Ok a)) k = k a.
Proof. unfold bind, lift. now destruct (k a). Qed.

Lemma bind_lift_Err {A B : Type} (x : Error) (k : A -> M B) :
  bind (lift (Err x)) k = ([], Err x).
Proof. reflexivity. Qed.

Lemma bind_ret {A B : Type} (a : A) (k : A -> M B) : bind (ret a) k = k a.
Proof. unfold bind, ret. now destruct (k a). Qed.

Lemma bind_throw {A B : Type} (x : Error) (k : A -> M B) :
  bind (throw x) k = ([], Err x).
Proof. reflexivity. Qed.

Lemma bind_assoc {A B C : Type} (m : M A) (k : A -> M B) (k' : B -> M C) :
  bind (bind m k) k' = bind m (fun x => bind (k x) k').
Proof.
  destruct m as [t [a|e]]; simpl; [|reflexivity].
  destruct (k a) as [t1 [b|e1]]; simpl; [|reflexivity].
  destruct (k' b) as [t2 r]. now rewrite app_assoc.
Qed.

Lemma trace_call {A : Type} (e : Event) (r : result A) :
  trace (call e r) = [e].
Proof. reflexivity. Qed.

Lemma outcome_call {A : Type} (e : Event) (r : result A) :
  outcome (call e r) = r.
Proof. reflexivity. Qed.

Lemma trace_pair {A : Type} (t : list Event) (r : result A) :
  trace (t, r) = t.
Proof. reflexivity. Qed.

Lemma outcome_pair {A : Type} (t : list Event) (r : result A) :
  outcome (t, r) = r.
Proof. reflexivity. Qed.

Lemma trace_ret {A : Type} (a : A) : trace (ret a) = [].
Proof. reflexivity. Qed.

Lemma outcome_ret {A : Type} (a : A) : outcome (ret a) = Ok a.
Proof. reflexivity. Qed.

Lemma run_eta {A : Type} (m : M A) : m = (trace m, outcome m).
Proof. now destruct m. Qed.

(** Running an entry point symbolically: unfold it, then follow the
    sequence of calls, splitting on the answer of each collaborator. *)
Ltac unfold_service :=
  unfold sendNftTransfer, sendNftTransferMin, estimateNftTransfer,
    sendNftRenew, estimateNftRenew, sendNftLink, estimateNftLink,
    getKeyPairAndSeqno, createNftTransfer,
    checkServiceTimeOrDie, checkWalletPositiveBalanceOrDie,
    checkWalletBalanceOrDie, getWalletBalance, getWalletMnemonic,
    mnemonicToPrivateKey, createTransferMessage, emulateMessageToWallet,
    sendBlockchainMessage, sendBoc, bigNumberToBigInt.

Ltac reduce_run :=
  repeat first
    [ rewrite bind_assoc | rewrite bind_call_Ok | rewrite bind_call_Err
    | rewrite bind_lift_Ok | rewrite bind_lift_Err | rewrite bind_ret
    | rewrite bind_throw | rewrite trace_call | rewrite outcome_call
    | rewrite trace_pair | rewrite outcome_pair | rewrite trace_ret
    | rewrite outcome_ret | progress cbn beta iota zeta ].

Ltac head_step m :=
  lazymatch m with
  | call _ (accepted _ ?b) => destruct b eqn:?; cbn [accepted]
  | call _ (orFail _ ?x) => destruct x eqn:?; cbn [orFail]
  | call _ (if ?c then _ else _) => destruct c eqn:?
  | lift (if ?c then _ else _) => destruct c eqn:?
  | lift ?r => destruct r eqn:?
  | (if ?c then _ else _) => destruct c eqn:?
  end.

Ltac run_step :=
  match goal with
  | |- context [trace (bind ?m _)] => head_step m
  | |- context [outcome (bind ?m _)] => head_step m
  end.

Ltac pair_step :=
  match goal with
  | |- context [trace (let (_, _) := ?p in _)] => destruct p
  | |- context [outcome (let (_, _) := ?p in _)] => destruct p
  | |- context [bind (let (_, _) := ?p in _) _] => destruct p
  end.

Ltac last_call :=
  try match goal with
    | |- context [orFail _ ?x] => destruct x eqn:?; cbn [orFail]
    | |- context [accepted _ ?b] => destruct b eqn:?; cbn [accepted]
    end.

Ltac run_cases :=
  unfold_service;
  repeat first
    [progress reduce_run | run_step; progress reduce_run | pair_step].

(** Closing goals about a trace that is now an explicit list. *)
Ltac in_trace H :=
  cbn [In] in H;
  repeat (destruct H as [H|H];
          [try discriminate H; inversion H; subst; try clear H|]);
  try contradiction.

(** ** Failures of the encoders *)

Lemma rbind_Err {A B : Type} (r : result A) (k : A -> result B) (e : Error) :
  rbind r k = Err e -> r = Err e \/ exists x, r = Ok x /\ k x = Err e.
Proof.
  destruct r as [x|e']; simpl; intros H; [right; eauto | left].
  inversion H; reflexivity.
Qed.

Lemma writeBits_Err (l : list bool) (b : Builder) (e : Error) :
  writeBits l b = Err e -> e = RangeError.
Proof.
  unfold writeBits. destruct (_ <=? _)%nat; intros H; inversion H.
  reflexivity.
Qed.

Lemma storeUint_Err (v : Z) (w : nat) (b : Builder) (e : Error) :
  storeUint v w b = Err e -> e = RangeError.
Proof.
  unfold storeUint. destruct (_ && _); [apply writeBits_Err|].
  intros H; inversion H; reflexivity.
Qed.

Lemma storeInt_Err (v : Z) (w : nat) (b : Builder) (e : Error) :
  storeInt v w b = Err e -> e = RangeError.
Proof.
  unfold storeInt. destruct w; [intros H; inversion H; reflexivity|].
  destruct (_ && _); [|intros H; inversion H; reflexivity].
  destruct (v <? 0); apply writeBits_Err.
Qed.

Ltac chain_err :=
  repeat match goal with
    | H : rbind _ _ = Err _ |- _ =>
        apply rbind_Err in H as [H|(? & ? & H)]
    | H : storeUint _ _ _ = Err _ |- _ => apply storeUint_Err in H
    | H : storeInt _ _ _ = Err _ |- _ => apply storeInt_Err in H
    | H : writeBits _ _ = Err _ |- _ => apply writeBits_Err in H
    end.

Lemma storeAddress_Err (a : Address) (b : Builder) (e : Error) :
  storeAddress a b = Err e -> e = RangeError.
Proof.
  unfold storeAddress, storeBuffer32. intros H. chain_err; assumption.
Qed.

Lemma storeCoins_Err (amount : Z) (b : Builder) (e : Error) :
  storeCoins amount b = Err e -> e = RangeError.
Proof.
  unfold storeCoins. destruct (amount <? 0).
  - intros H; inversion H; reflexivity.
  - destruct (amount =? 0); intros H; chain_err; assumption.
Qed.

Lemma storeRef_Err (c : Cell) (b : Builder) (e : Error) :
  storeRef c b = Err e -> e = RangeError.
Proof.
  unfold storeRef. destruct (_ <? _)%nat; intros H; inversion H.
  reflexivity.
Qed.

Lemma storeMaybeRef_Err (c : option Cell) (b : Builder) (e : Error) :
  storeMaybeRef c b = Err e -> e = RangeError.
Proof.
  unfold storeMaybeRef, storeBit. destruct c; intros H; chain_err;
    try assumption.
  now apply storeRef_Err in H.
Qed.

Lemma Address_parse_Err (w : World) (s : string) (e : Error) :
  Address_parse w s = Err e -> e = FormatError.
Proof.
  unfold Address_parse, orFail. destruct (parsedAddress w s);
    intros H; inversion H; reflexivity.
Qed.

Ltac encoder_err :=
  repeat match goal with
    | H : rbind _ _ = Err _ |- _ =>
        apply rbind_Err in H as [H|(? & ? & H)]
    | H : finish _ = Err _ |- _ => discriminate H
    | H : storeUint _ _ _ = Err _ |- _ => apply storeUint_Err in H
    | H : storeBit _ _ = Err _ |- _ => apply writeBits_Err in H
    | H : storeAddress _ _ = Err _ |- _ => apply storeAddress_Err in H
    | H : storeCoins _ _ = Err _ |- _ => apply storeCoins_Err in H
    | H : storeRef _ _ = Err _ |- _ => apply storeRef_Err in H
    | H : storeMaybeRef _ _ = Err _ |- _ => apply storeMaybeRef_Err in H
    | H : Address_parse _ _ = Err _ |- _ => apply Address_parse_Err in H
    end.

Lemma nftTransferBody_Err (p : NftTransferParams) (e : Error) :
  nftTransferBody p = Err e -> encodingError e.
Proof.
  unfold nftTransferBody, encodingError. intros H.
  encoder_err; right; assumption.
Qed.

Lemma nftRenewBody_Err (params : option NftRenewParams) (e : Error) :
  nftRenewBody params = Err e -> encodingError e.
Proof.
  unfold nftRenewBody, encodingError. intros H.
  encoder_err; right; assumption.
Qed.

Lemma nftLinkBody_Err (w : World) (p : NftLinkParams) (e : Error) :
  nftLinkBody w p = Err e -> encodingError e.
Proof.
  unfold nftLinkBody, addressToDNSAddressFormat, encodingError. intros H.
  encoder_err; try (right; assumption).
  destruct (truthy (linkToAddress p)); [|discriminate].
  encoder_err; try (right; assumption); left; assumption.
Qed.

Lemma transferBody_of_strings_Err (w : World) (owner response : string)
    (q : option Z) (amount : Z) (payload : option Cell) (e : Error) :
  (newOwner <- Address_parse w owner ;;
   resp <- Address_parse w response ;;
   nftTransferBody (mkTransferParams q newOwner resp amount payload))%result
  = Err e ->
  encodingError e.
Proof.
  intros H.
  apply rbind_Err in H as [H|(a & _ & H)];
    [left; now apply Address_parse_Err in H|].
  apply rbind_Err in H as [H|(b & _ & H)];
    [left; now apply Address_parse_Err in H|].
  now apply nftTransferBody_Err in H.
Qed.

(** ** The amounts of [sendNftTransfer] *)

Lemma nftTransferAmount_max (min feeExtra : Z) :
  nftTransferAmount min feeExtra = Z.max min (min - feeExtra).
Proof.
  unfold nftTransferAmount. cbv zeta.
  destruct (Z.ltb_spec (feeExtra * -1 + min) min); lia.
Qed.

Lemma total_minus (min feeExtra : Z) :
  total min feeExtra = nftTransferAmount min feeExtra - feeExtra.
Proof. unfold total. lia. Qed.

Lemma minTransfer_value : minTransfer = 50000000.
Proof. reflexivity. Qed.

Example toNano_literals :
  toNano "0.05" = Some 50000000 /\ toNano "1" = Some 1000000000.
Proof. split; reflexivity. Qed.

(** Balance 3, minimum 5, fee delta 0: the total 5 exceeds the balance. *)
Example insufficient_balance_run :
  sendNftTransferMin 5 (demoWorld 3) demoWallet demoRecipient demoNft
    (mkConsequences 0) "secret"
  = ([CheckServiceTime; GetWalletMnemonic "pub" "secret";
      MnemonicToPrivateKey ["abandon"; "ability"];
      GetWalletBalance demoWallet; CheckWalletBalance 5 (mkAccount 3)],
     Err InsufficientBalance).
Proof. reflexivity. Qed.

(** A balance of 1 passes the positive-balance check, 0 does not. *)
Example positive_balance_runs :
  outcome (checkWalletPositiveBalanceOrDie (mkAccount 1)) = Ok tt
  /\ outcome (checkWalletPositiveBalanceOrDie (mkAccount 0))
     = Err EmptyBalance.
Proof. split; reflexivity. Qed.

(** ** Entry points *)

Lemma sendNftTransferMin_checked_total min w ws r n fee pw tot wallet :
  In (CheckWalletBalance tot wallet)
     (trace (sendNftTransferMin min w ws r n fee pw)) ->
  tot = total min (extra fee).
Proof.
  run_cases; intros H; in_trace H; reflexivity.
Qed.

Lemma sendNftTransferMin_attached min w ws r n fee pw seqno st key to value
    body :
  In (CreateTransferMessage seqno st key to value body)
     (trace (sendNftTransferMin min w ws r n fee pw)) ->
  value = nftTransferAmount min (extra fee) /\ 0 < value.
Proof.
  run_cases; intros H; in_trace H; (split; [reflexivity | lia]).
Qed.

Ltac solve_never := apply forallb_never; reflexivity.

Ltac broadcast_in H :=
  let e := fresh "e" in
  let He := fresh "He" in
  let Hb := fresh "Hb" in
  destruct H as (e & He & Hb); in_trace He; discriminate Hb.

Ltac strict_tac :=
  split; [|split];
  [ apply guarded_precededBy; run_cases; reflexivity
  | intros tot wallet; run_cases; intros H Hlt; in_trace H;
    try (exfalso;
         match goal with
         | Hc : (_ <? _) = false |- _ => apply Z.ltb_ge in Hc; lia
         end);
    (split; [reflexivity | solve_never])
  | intros tot wallet; run_cases; intros H Hb; in_trace H;
    try match goal with
      | Hc : (_ <? _) = false |- _ => apply Z.ltb_ge in Hc; exact Hc
      end;
    broadcast_in Hb ].

Lemma sendNftTransferMin_strict min w ws r n fee pw :
  strictlyChecked (sendNftTransferMin min w ws r n fee pw).
Proof. strict_tac. Qed.

Lemma sendNftRenew_strict w o : strictlyChecked (sendNftRenew w o).
Proof. strict_tac. Qed.

Lemma sendNftLink_strict w o : strictlyChecked (sendNftLink w o).
Proof. strict_tac. Qed.

Ltac weak_tac :=
  split; [|split; [|split; [|split]]];
  [ run_cases; solve_never
  | run_cases; solve_never
  | apply guarded_precededBy; run_cases; reflexivity
  | apply guarded_precededBy; run_cases; reflexivity
  | intros wallet; run_cases; intros H Hle; in_trace H;
    try (exfalso;
         match goal with
         | Hc : (_ <=? _) = false |- _ => apply Z.leb_gt in Hc; lia
         end);
    (split; [reflexivity | solve_never]) ].

Lemma estimateNftTransfer_weak w ws r n :
  weaklyChecked (estimateNftTransfer w ws r n).
Proof. weak_tac. Qed.

Lemma estimateNftRenew_weak w o : weaklyChecked (estimateNftRenew w o).
Proof. weak_tac. Qed.

Lemma estimateNftLink_weak w o : weaklyChecked (estimateNftLink w o).
Proof. weak_tac. Qed.

Ltac discipline_tac :=
  split; [|split; [|split; [|split; [|split; [|split]]]]];
  [ run_cases; reflexivity
  | apply guarded_precededBy; run_cases; reflexivity
  | apply guarded_precededBy; run_cases; reflexivity
  | intros Hs;
    match goal with |- ?m = _ => rewrite (run_eta m) end;
    run_cases; try congruence; reflexivity
  | intros wallet seqno Hs Ha Hle;
    match goal with |- ?m = _ => rewrite (run_eta m) end;
    run_cases; try congruence;
    match goal with
    | Hx : Some _ = Some _ |- _ => inversion Hx; subst; clear Hx
    | H1 : accountState _ _ = Some _, H2 : accountState _ _ = Some _ |- _ =>
        rewrite H1 in H2; inversion H2; subst; clear H2
    end;
    try reflexivity;
    exfalso;
    match goal with
    | Hc : (_ <=? _) = false |- _ => apply Z.leb_gt in Hc; lia
    end
  | intros seqno st key to value body; run_cases; intros H; in_trace H;
    reflexivity
  | run_cases; solve_never ].

Lemma estimateNftTransfer_discipline w ws r n :
  estimateDiscipline w ws (estimateNftTransfer w ws r n).
Proof. discipline_tac. Qed.

Lemma estimateNftRenew_discipline w o :
  estimateDiscipline w (erWalletState o) (estimateNftRenew w o).
Proof. discipline_tac. Qed.

Lemma estimateNftLink_discipline w o :
  estimateDiscipline w (elWalletState o) (estimateNftLink w o).
Proof. discipline_tac. Qed.

Lemma createNftTransfer_queryId w seqno ws recipient nft amount payload key
    s st k to v body :
  In (CreateTransferMessage s st k to v body)
     (trace (createNftTransfer w seqno ws recipient nft amount payload key)) ->
  cellQueryId body = dateNow w.
Proof.
  run_cases; intros H; in_trace H.
  match goal with
  | Hr : rbind _ _ = Ok _ |- _ =>
      apply rbind_Ok in Hr as (a1 & _ & Hr);
      apply rbind_Ok in Hr as (a2 & _ & Hr);
      apply nftTransferBody_head in Hr as [_ Hq]
  end.
  rewrite Hq. cbn [queryId orZero].
  destruct (Z.eqb_spec (dateNow w) 0) as [Hz|Hz];
    [now rewrite Hz | reflexivity].
Qed.

Ltac find_event := vm_compute; repeat first [left; reflexivity | right].

(** ** Properties of the entry points *)

Lemma pair_eq {A B : Type} (a c : A) (b d : B) :
  (a, b) = (c, d) -> a = c /\ b = d.
Proof. intros H. now inversion H. Qed.

Lemma Ok_eq {A : Type} (a b : A) : Ok a = Ok b -> a = b.
Proof. intros H. now inversion H. Qed.

Lemma Address_parse_Ok (w : World) (s : string) (a : Address) :
  Address_parse w s = Ok a -> parsedAddress w s = Some a.
Proof.
  unfold Address_parse, orFail. destruct (parsedAddress w s);
    intros H; inversion H; reflexivity.
Qed.

Lemma transferBody_of_strings_Ok (w : World) (owner response : string)
    (q : option Z) (amount : Z) (payload : option Cell) (body : Cell) :
  (newOwner <- Address_parse w owner ;;
   resp <- Address_parse w response ;;
   nftTransferBody (mkTransferParams q newOwner resp amount payload))%result
  = Ok body ->
  exists a b,
    parsedAddress w owner = Some a /\ parsedAddress w response = Some b
    /\ nftTransferBody (mkTransferParams q a b amount payload) = Ok body.
Proof.
  intros H.
  apply rbind_Ok in H as (a & Ha & H).
  apply rbind_Ok in H as (b & Hb & H).
  exists a, b. split; [now apply Address_parse_Ok|].
  split; [now apply Address_parse_Ok | exact H].
Qed.

Lemma transferBody_of_strings_fits (w : World) (owner response : string)
    (q : option Z) (amount : Z) (payload : option Cell) (a b : Address)
    (body : Cell) :
  parsedAddress w owner = Some a -> parsedAddress w response = Some b ->
  nftTransferBody (mkTransferParams q a b amount payload) = Ok body ->
  (newOwner <- Address_parse w owner ;;
   resp <- Address_parse w response ;;
   nftTransferBody (mkTransferParams q newOwner resp amount payload))%result
  = Ok body.
Proof.
  intros Ha Hb H. unfold Address_parse. rewrite Ha, Hb. exact H.
Qed.

(** Splitting an equation between a run and an explicit result. *)
Ltac run_equation :=
  match goal with
  | |- ?m = _ -> _ => rewrite (run_eta m)
  end;
  run_cases; last_call;
  let H := fresh "Hrun" in
  intros H; apply pair_eq in H as [? H]; try discriminate H;
  try apply Ok_eq in H; subst.

Lemma nftRenewBody_default :
  nftRenewBody None = Ok (mkCell (renewBits None) []).
Proof.
  apply (proj1 (nftRenewBody_eq None)). split; [now vm_compute | reflexivity].
Qed.

Lemma safeInteger_below_exponential (x : Z) :
  safeInteger x ->
  (10 ^ 21 <=? Z.abs (nftTransferAmount minTransfer x)) = false.
Proof.
  unfold safeInteger. intros Hx. apply Z.leb_gt.
  rewrite nftTransferAmount_max, minTransfer_value.
  assert (H53 : 2 ^ 53 = 9007199254740992) by reflexivity.
  assert (H21 : 10 ^ 21 = 1000000000000000000000) by reflexivity. lia.
Qed.

(** The run of [sendNftTransfer] once every step up to the assembler has
    succeeded. *)
Lemma sendNftTransfer_run (w : World) (ws : WalletState)
    (r : TonRecipientData) (n : NftItemRepr) (fee : MessageConsequences)
    (pw : string) (words : list string) (wallet : Account) (seqno : Z)
    (owner response : Address) (body : Cell) :
  let amount := nftTransferAmount minTransfer (extra fee) in
  let tot := total minTransfer (extra fee) in
  let key := secretKey (deriveKeyPair w words) in
  let pre := [CheckServiceTime; GetWalletMnemonic (publicKey ws) pw;
              MnemonicToPrivateKey words; GetWalletBalance ws;
              CheckWalletBalance tot wallet;
              CreateTransferMessage seqno ws key (nftItemAddress n) amount
                body] in
  safeInteger (extra fee) ->
  serviceTimeOk w = true ->
  walletMnemonic w (publicKey ws) pw = Some words ->
  accountState w ws = Some (wallet, seqno) ->
  tot <= balance wallet ->
  parsedAddress w (toAccountRaw r) = Some owner ->
  parsedAddress w (rawAddress ws) = Some response ->
  nftTransferBody
    (mkTransferParams (Some (dateNow w)) owner response 1
       (commentPayload w r)) = Ok body ->
  sendNftTransfer w ws r n fee pw
  = match transferMessage w seqno ws key (nftItemAddress n) amount body with
    | Some cell =>
        ((pre ++ [SendBlockchainMessage (toBase64 w cell)])%list,
         accepted RemoteRejection (blockchainMessage w (toBase64 w cell)))
    | None => (pre, Err FormatError)
    end.
Proof.
  cbv zeta. intros Hsafe Hs Hm Ha Hbal Ho Hr Hbody.
  pose proof (safeInteger_below_exponential _ Hsafe) as Hexp.
  assert (Hpos : (nftTransferAmount minTransfer (extra fee) <=? 0) = false).
  { apply Z.leb_gt. rewrite nftTransferAmount_max, minTransfer_value. lia. }
  pose proof (transferBody_of_strings_fits w _ _ _ _ _ _ _ _ Ho Hr Hbody)
    as Henc.
  unfold sendNftTransfer, sendNftTransferMin. unfold_service. reduce_run.
  rewrite Hs. cbn [accepted]. reduce_run.
  rewrite Hm. cbn [orFail]. reduce_run.
  rewrite Hpos. reduce_run.
  rewrite Ha. cbn [orFail]. reduce_run.
  destruct (Z.ltb_spec (balance wallet) (total minTransfer (extra fee)));
    [lia|].
  reduce_run. rewrite Hexp. reduce_run.
  change nftTransferForwardAmount with 1. rewrite Henc. reduce_run.
  destruct (transferMessage w seqno ws (secretKey (deriveKeyPair w words))
              (nftItemAddress n) (nftTransferAmount minTransfer (extra fee))
              body) as [cell|]; cbn [orFail]; reduce_run; reflexivity.
Qed.

(** From 1e21 on the amount cannot be converted: the run stops after the
    sufficiency check, and no message is assembled. *)
Lemma sendNftTransfer_exponential_amount :
  sendNftTransfer (demoWorld (3 * 10 ^ 21)) demoWallet demoRecipient demoNft
    (mkConsequences (- 10 ^ 21)) "secret"
  = ([CheckServiceTime; GetWalletMnemonic (publicKey demoWallet) "secret";
      MnemonicToPrivateKey ["abandon"; "ability"];
      GetWalletBalance demoWallet;
      CheckWalletBalance (2 * 10 ^ 21 + 50000000)
        (mkAccount (3 * 10 ^ 21))], Err FormatError).
Proof. now vm_compute. Qed.

Ltac same_answer :=
  repeat match goal with
    | Hx : Some _ = Some _ |- _ => inversion Hx; subst; clear Hx
    | Hx : Ok _ = Ok _ |- _ => apply Ok_eq in Hx; subst
    end.

Lemma sendNftTransfer_reaches_check (w : World) (ws : WalletState)
    (r : TonRecipientData) (n : NftItemRepr) (fee : MessageConsequences)
    (pw : string) (words : list string) (wallet : Account) (seqno : Z) :
  serviceTimeOk w = true ->
  walletMnemonic w (publicKey ws) pw = Some words ->
  accountState w ws = Some (wallet, seqno) ->
  In (CheckWalletBalance (total minTransfer (extra fee)) wallet)
     (trace (sendNftTransfer w ws r n fee pw)).
Proof.
  intros Hs Hm Ha.
  pose proof (nftTransferAmount_max minTransfer (extra fee)) as Hmax.
  pose proof minTransfer_value as Hmin.
  run_cases; try congruence; same_answer;
    try (cbn [In]; do 4 right; left; reflexivity).
  match goal with
  | Hc : (_ <=? 0) = true |- _ => apply Z.leb_le in Hc; lia
  end.
Qed.

Lemma sendNftTransfer_runs_check (w : World) (ws : WalletState)
    (r : TonRecipientData) (n : NftItemRepr) (fee : MessageConsequences)
    (pw : string) :
  runsSufficiencyCheck w ws pw (sendNftTransfer w ws r n fee pw).
Proof.
  pose proof (nftTransferAmount_max minTransfer (extra fee)) as Hmax.
  pose proof minTransfer_value as Hmin.
  split.
  - intros words wallet seqno Hs Hm Ha.
    exists (total minTransfer (extra fee)). split.
    + now apply (sendNftTransfer_reaches_check w ws r n fee pw words wallet
                   seqno).
    + intros Hlt. rewrite (run_eta (sendNftTransfer _ _ _ _ _ _)).
      run_cases; try congruence; same_answer; try reflexivity;
        try match goal with
          | Hc : (_ <? _) = false |- _ => apply Z.ltb_ge in Hc; lia
          | Hc : (_ <=? 0) = true |- _ => apply Z.leb_le in Hc; lia
          end.
  - intros a.
    assert (Hex : outcome (sendNftTransfer w ws r n fee pw) = Ok a ->
                  existsb isBroadcast (trace (sendNftTransfer w ws r n fee pw))
                  = true).
    { run_cases; last_call; intros Ho; try discriminate Ho; reflexivity. }
    intros Ho. apply existsb_exists. now apply Hex.
Qed.

Lemma sendNftRenew_runs_check (w : World) (o : SendRenewOptions) :
  runsSufficiencyCheck w (srWalletState o) (srPassword o) (sendNftRenew w o).
Proof.
  split.
  - intros words wallet seqno Hs Hm Ha.
    exists (srAmount o + extra (srFee o) * -1). split.
    + run_cases; try congruence; same_answer;
        cbn [In]; do 4 right; left; reflexivity.
    + intros Hlt. rewrite (run_eta (sendNftRenew _ _)).
      run_cases; try congruence; same_answer; try reflexivity;
        match goal with
        | Hc : (_ <? _) = false |- _ => apply Z.ltb_ge in Hc; lia
        end.
  - intros a.
    assert (Hex : outcome (sendNftRenew w o) = Ok a ->
                  existsb isBroadcast (trace (sendNftRenew w o)) = true).
    { run_cases; last_call; intros Ho; try discriminate Ho; reflexivity. }
    intros Ho. apply existsb_exists. now apply Hex.
Qed.

Lemma sendNftLink_runs_check (w : World) (o : SendLinkOptions) :
  runsSufficiencyCheck w (slWalletState o) (slPassword o) (sendNftLink w o).
Proof.
  split.
  - intros words wallet seqno Hs Hm Ha.
    exists (slAmount o + extra (slFee o) * -1). split.
    + run_cases; try congruence; same_answer;
        cbn [In]; do 4 right; left; reflexivity.
    + intros Hlt. rewrite (run_eta (sendNftLink _ _)).
      run_cases; try congruence; same_answer; try reflexivity;
        match goal with
        | Hc : (_ <? _) = false |- _ => apply Z.ltb_ge in Hc; lia
        end.
  - intros a.
    assert (Hex : outcome (sendNftLink w o) = Ok a ->
                  existsb isBroadcast (trace (sendNftLink w o)) = true).
    { run_cases; last_call; intros Ho; try discriminate Ho; reflexivity. }
    intros Ho. apply existsb_exists. now apply Hex.
Qed.

Ltac not_a_balance_error :=
  match goal with
  | Hr : nftRenewBody _ = Err _ |- _ =>
      apply nftRenewBody_Err in Hr as [-> | ->]
  | Hr : nftLinkBody _ _ = Err _ |- _ =>
      apply nftLinkBody_Err in Hr as [-> | ->]
  | Hr : rbind _ _ = Err _ |- _ =>
      apply transferBody_of_strings_Err in Hr as [-> | ->]
  end.

Ltac positive_only_tac m :=
  intros wallet seqno Hs Ha; split; [|split];
  [ run_cases; try congruence; same_answer;
    cbn [In]; do 2 right; left; reflexivity
  | intros Hle; rewrite (run_eta m);
    run_cases; try congruence; same_answer; try reflexivity;
    match goal with
    | Hc : (_ <=? 0) = false |- _ => apply Z.leb_gt in Hc; lia
    end
  | intros Hpos; run_cases; last_call; try congruence; same_answer;
    try (split; discriminate);
    try (not_a_balance_error; split; discriminate);
    match goal with
    | Hc : (_ <=? 0) = true |- _ => apply Z.leb_le in Hc; lia
    end ].

Lemma estimateNftTransfer_positive_only (w : World) (ws : WalletState)
    (r : TonRecipientData) (n : NftItemRepr) :
  runsPositiveCheckOnly w ws (estimateNftTransfer w ws r n).
Proof. positive_only_tac (estimateNftTransfer w ws r n). Qed.

Lemma estimateNftRenew_positive_only (w : World) (o : EstimateRenewOptions) :
  runsPositiveCheckOnly w (erWalletState o) (estimateNftRenew w o).
Proof. positive_only_tac (estimateNftRenew w o). Qed.

Lemma estimateNftLink_positive_only (w : World) (o : EstimateLinkOptions) :
  runsPositiveCheckOnly w (elWalletState o) (estimateNftLink w o).
Proof. positive_only_tac (estimateNftLink w o). Qed.

Ltac placeholder_tac m ws :=
  intros a;
  assert (Hgen : forall t, trace m = t -> outcome m = Ok a ->
                           exists seqno to value body,
                             In (CreateTransferMessage seqno ws
                                   (Buffer_alloc 64) to value body) t);
  [ intros t; run_cases; last_call; intros Ht Ho; try discriminate Ho;
    subst t; do 4 eexists; cbn [In]; do 3 right; left; reflexivity
  | intros Ho; exact (Hgen _ eq_refl Ho) ].

Lemma estimateNftTransfer_placeholder (w : World) (ws : WalletState)
    (r : TonRecipientData) (n : NftItemRepr) :
  returnsAfterPlaceholderAssembly ws (estimateNftTransfer w ws r n).
Proof. placeholder_tac (estimateNftTransfer w ws r n) ws. Qed.

Lemma estimateNftRenew_placeholder (w : World) (o : EstimateRenewOptions) :
  returnsAfterPlaceholderAssembly (erWalletState o) (estimateNftRenew w o).
Proof. placeholder_tac (estimateNftRenew w o) (erWalletState o). Qed.

Lemma estimateNftLink_placeholder (w : World) (o : EstimateLinkOptions) :
  returnsAfterPlaceholderAssembly (elWalletState o) (estimateNftLink w o).
Proof. placeholder_tac (estimateNftLink w o) (elWalletState o). Qed.

Lemma estimateNftTransfer_assembles (w : World) (ws : WalletState)
    (r : TonRecipientData) (n : NftItemRepr) (wallet : Account) (seqno : Z)
    (owner response : Address) (body : Cell) :
  serviceTimeOk w = true ->
  accountState w ws = Some (wallet, seqno) ->
  0 < balance wallet ->
  parsedAddress w (toAccountRaw r) = Some owner ->
  parsedAddress w (rawAddress ws) = Some response ->
  nftTransferBody
    (mkTransferParams (Some (dateNow w)) owner response 1
       (commentPayload w r)) = Ok body ->
  In (CreateTransferMessage seqno ws (Buffer_alloc 64) (nftItemAddress n)
        1000000000 body)
     (trace (estimateNftTransfer w ws r n)).
Proof.
  intros Hs Ha Hpos Ho Hr Hbody.
  pose proof (transferBody_of_strings_fits w _ _ _ _ _ _ _ _ Ho Hr Hbody)
    as Henc.
  change 1 with nftTransferForwardAmount in Henc.
  run_cases; try congruence; same_answer;
    try (cbn [In]; do 3 right; left; reflexivity).
  match goal with
  | Hc : (_ <=? 0) = true |- _ => apply Z.leb_le in Hc; lia
  end.
Qed.

Lemma estimateNftRenew_assembles (w : World) (o : EstimateRenewOptions)
    (wallet : Account) (seqno : Z) (body : Cell) :
  serviceTimeOk w = true ->
  accountState w (erWalletState o) = Some (wallet, seqno) ->
  0 < balance wallet ->
  nftRenewBody None = Ok body ->
  In (CreateTransferMessage seqno (erWalletState o) (Buffer_alloc 64)
        (erNftAddress o) (erAmount o) body)
     (trace (estimateNftRenew w o)).
Proof.
  intros Hs Ha Hpos Hbody.
  run_cases; try congruence; same_answer;
    try (cbn [In]; do 3 right; left; reflexivity).
  match goal with
  | Hc : (_ <=? 0) = true |- _ => apply Z.leb_le in Hc; lia
  end.
Qed.

Lemma estimateNftLink_assembles (w : World) (o : EstimateLinkOptions)
    (wallet : Account) (seqno : Z) (body : Cell) :
  serviceTimeOk w = true ->
  accountState w (elWalletState o) = Some (wallet, seqno) ->
  0 < balance wallet ->
  nftLinkBody w (mkLinkParams None (elLinkToAddress o)) = Ok body ->
  In (CreateTransferMessage seqno (elWalletState o) (Buffer_alloc 64)
        (elNftAddress o) (elAmount o) body)
     (trace (estimateNftLink w o)).
Proof.
  intros Hs Ha Hpos Hbody.
  run_cases; try congruence; same_answer;
    try (cbn [In]; do 3 right; left; reflexivity).
  match goal with
  | Hc : (_ <=? 0) = true |- _ => apply Z.leb_le in Hc; lia
  end.
Qed.

(** C1 (as amended).  For a fee delta in the safe-integer range, the
    amount [sendNftTransfer] passes to the sufficiency check is the final
    amount minus the fee delta (the final amount plus the delta multiplied
    by -1), for the constant minimum of the source and for any other
    minimum, and the check is run with that total as soon as the
    service-time check, the secret store and the balance query have
    answered; for minimum 5 and delta -2 the final amount is 7, the
    checked total is 9, and with balance 100 the check passes. *)
Theorem sendNftTransfer_checked_total :
  (forall min w ws r n fee pw tot wallet,
     safeInteger (extra fee) ->
     In (CheckWalletBalance tot wallet)
        (trace (sendNftTransferMin min w ws r n fee pw)) ->
     tot = nftTransferAmount min (extra fee) - extra fee)
  /\ (forall w ws r n fee pw tot wallet,
        safeInteger (extra fee) ->
        In (CheckWalletBalance tot wallet)
           (trace (sendNftTransfer w ws r n fee pw)) ->
        tot = nftTransferAmount minTransfer (extra fee) - extra fee)
  /\ (forall w ws r n fee pw words wallet seqno,
        safeInteger (extra fee) ->
        serviceTimeOk w = true ->
        walletMnemonic w (publicKey ws) pw = Some words ->
        accountState w ws = Some (wallet, seqno) ->
        In (CheckWalletBalance
              (nftTransferAmount minTransfer (extra fee) - extra fee) wallet)
           (trace (sendNftTransfer w ws r n fee pw)))
  /\ nftTransferAmount 5 (-2) = 7
  /\ total 5 (-2) = 9
  /\ checkWalletBalanceOrDie (total 5 (-2)) (mkAccount 100)
     = ([CheckWalletBalance 9 (mkAccount 100)], Ok tt).
Proof.
  split; [|split; [|split; [|repeat split]]].
  - intros min w ws r n fee pw tot wallet _ H.
    apply sendNftTransferMin_checked_total in H.
    now rewrite total_minus in H.
  - intros w ws r n fee pw tot wallet _ H. unfold sendNftTransfer in H.
    apply sendNftTransferMin_checked_total in H.
    now rewrite total_minus in H.
  - intros w ws r n fee pw words wallet seqno _ Hs Hm Ha.
    rewrite <- total_minus.
    now apply (sendNftTransfer_reaches_check w ws r n fee pw words wallet
                 seqno).
Qed.

Lemma sendNftTransfer_checked_total_witness :
  In (CheckWalletBalance 9 (mkAccount 100))
     (trace (sendNftTransferMin 5 (demoWorld 100) demoWallet demoRecipient
               demoNft (mkConsequences (-2)) "secret"))
  /\ 9 = nftTransferAmount 5 (-2) - -2
  /\ In (CheckWalletBalance 50000004 (mkAccount 100))
        (trace (sendNftTransfer (demoWorld 100) demoWallet demoRecipient
                  demoNft (mkConsequences (-2)) "secret")).
Proof.
  assert (Hsafe : safeInteger (-2)) by (split; now vm_compute).
  assert (Hin : In (CheckWalletBalance 9 (mkAccount 100))
                   (trace (sendNftTransferMin 5 (demoWorld 100) demoWallet
                             demoRecipient demoNft (mkConsequences (-2))
                             "secret"))) by find_event.
  split; [exact Hin|]. split.
  - exact (proj1 sendNftTransfer_checked_total 5 (demoWorld 100) demoWallet
             demoRecipient demoNft (mkConsequences (-2)) "secret" 9
             (mkAccount 100) Hsafe Hin).
  - exact (proj1 (proj2 (proj2 sendNftTransfer_checked_total))
             (demoWorld 100) demoWallet demoRecipient demoNft
             (mkConsequences (-2)) "secret" ["abandon"; "ability"]
             (mkAccount 100) 7 Hsafe eq_refl eq_refl eq_refl).
Defined.

(** C1 as stated fails: for minimum 5 and fee delta -2 the total handed to
    the sufficiency check is 9, not 7 + (-2) = 5; and in [sendNftTransfer]
    itself, for the delta -2, it is 50000004, not 50000002 + (-2). *)
Lemma sendNftTransfer_total_is_not_amount_plus_delta :
  nftTransferAmount 5 (-2) = 7
  /\ In (CheckWalletBalance 9 (mkAccount 100))
        (trace (sendNftTransferMin 5 (demoWorld 100) demoWallet demoRecipient
                  demoNft (mkConsequences (-2)) "secret"))
  /\ 9 <> nftTransferAmount 5 (-2) + -2
  /\ In (CheckWalletBalance 50000004 (mkAccount 100))
        (trace (sendNftTransfer (demoWorld 100) demoWallet demoRecipient
                  demoNft (mkConsequences (-2)) "secret"))
  /\ 50000004 <> nftTransferAmount minTransfer (-2) + -2.
Proof.
  split; [reflexivity|]. split; [find_event|].
  split; [vm_compute; discriminate|]. split; [find_event|].
  vm_compute; discriminate.
Qed.



(** C3.  Each of the three send entry points runs the sufficiency check:
    once the service-time check, the secret store and the balance query
    have answered, the check is in the trace, a total above the balance
    ends the run at that check with InsufficientBalance, every submission
    to a broadcast endpoint comes after the check, and the entry point
    returns normally only after a broadcast.  Each of the three estimate
    entry points runs no sufficiency check at all, only the
    positive-balance check: it is in the trace once the service-time check
    and the balance query have answered, a balance of at most 0 ends the
    run with EmptyBalance, and any positive balance passes. *)
Theorem send_strict_estimate_weak (w : World) :
  (forall ws r n fee pw,
     strictlyChecked (sendNftTransfer w ws r n fee pw)
     /\ runsSufficiencyCheck w ws pw (sendNftTransfer w ws r n fee pw))
  /\ (forall options,
        strictlyChecked (sendNftRenew w options)
        /\ runsSufficiencyCheck w (srWalletState options)
             (srPassword options) (sendNftRenew w options))
  /\ (forall options,
        strictlyChecked (sendNftLink w options)
        /\ runsSufficiencyCheck w (slWalletState options)
             (slPassword options) (sendNftLink w options))
  /\ (forall ws r n,
        weaklyChecked (estimateNftTransfer w ws r n)
        /\ runsPositiveCheckOnly w ws (estimateNftTransfer w ws r n))
  /\ (forall options,
        weaklyChecked (estimateNftRenew w options)
        /\ runsPositiveCheckOnly w (erWalletState options)
             (estimateNftRenew w options))
  /\ (forall options,
        weaklyChecked (estimateNftLink w options)
        /\ runsPositiveCheckOnly w (elWalletState options)
             (estimateNftLink w options)).
Proof.
  split; [|split; [|split; [|split; [|split]]]]; intros; split.
  all: first [ apply sendNftTransferMin_strict | apply sendNftRenew_strict
             | apply sendNftLink_strict | apply estimateNftTransfer_weak
             | apply estimateNftRenew_weak | apply estimateNftLink_weak
             | apply sendNftTransfer_runs_check
             | apply sendNftRenew_runs_check | apply sendNftLink_runs_check
             | apply estimateNftTransfer_positive_only
             | apply estimateNftRenew_positive_only
             | apply estimateNftLink_positive_only ].
Qed.

Lemma send_strict_estimate_weak_witness :
  outcome (sendNftTransfer (demoWorld 3) demoWallet demoRecipient demoNft
             (mkConsequences 0) "secret")
  = Err InsufficientBalance
  /\ outcome (sendNftRenew (demoWorld 3)
                (mkSendRenew demoWallet "0:nft" (mkConsequences 0) "secret"
                   5))
     = Err InsufficientBalance
  /\ outcome (sendNftLink (demoWorld 3)
                (mkSendLink demoWallet "0:nft" "0:abc" (mkConsequences 0)
                   "secret" 5))
     = Err InsufficientBalance
  /\ outcome (estimateNftRenew (demoWorld 0)
                (mkEstimateRenew demoWallet "0:nft" 5))
     = Err EmptyBalance
  /\ outcome (estimateNftLink (demoWorld 1)
                (mkEstimateLink demoWallet "0:nft" "0:abc" 5))
     <> Err InsufficientBalance.
Proof.
  destruct (send_strict_estimate_weak (demoWorld 3))
    as (Htransfer & Hrenew & Hlink & _).
  destruct (send_strict_estimate_weak (demoWorld 0))
    as (_ & _ & _ & _ & Hestimate & _).
  destruct (send_strict_estimate_weak (demoWorld 1))
    as (_ & _ & _ & _ & _ & Hweak).
  split; [|split; [|split; [|split]]].
  - destruct (Htransfer demoWallet demoRecipient demoNft (mkConsequences 0)
                "secret") as [(_ & Hfail & _) _].
    apply (Hfail 50000000 (mkAccount 3)); [find_event | simpl; lia].
  - destruct (Hrenew (mkSendRenew demoWallet "0:nft" (mkConsequences 0)
                        "secret" 5)) as [(_ & Hfail & _) _].
    apply (Hfail 5 (mkAccount 3)); [find_event | simpl; lia].
  - destruct (Hlink (mkSendLink demoWallet "0:nft" "0:abc"
                       (mkConsequences 0) "secret" 5)) as [_ [Hruns _]].
    destruct (Hruns ["abandon"; "ability"] (mkAccount 3) 7 eq_refl eq_refl
                eq_refl) as (tot & Hin & Hfail).
    assert (Htot : tot = 5).
    { vm_compute in Hin.
      repeat (destruct Hin as [Hin|Hin]; [try discriminate Hin|]);
        [now inversion Hin | contradiction]. }
    subst tot. rewrite Hfail by (simpl; lia). reflexivity.
  - destruct (Hestimate (mkEstimateRenew demoWallet "0:nft" 5))
      as [(_ & _ & _ & _ & Hfail) _].
    apply (Hfail (mkAccount 0)); [find_event | simpl; lia].
  - destruct (Hweak (mkEstimateLink demoWallet "0:nft" "0:abc" 5))
      as [_ Hpos].
    destruct (Hpos (mkAccount 1) 7 eq_refl eq_refl) as (_ & _ & Hpass).
    apply Hpass. simpl; lia.
Defined.

(** C4 as stated fails: with no query id the transfer encoder writes the
    query id 0, whatever the time; at the clock value 1700000000000 the
    cell reads 0, as the renew and link cells do. *)
Lemma transfer_encoder_default_is_not_the_time :
  exists c, nftTransferBody (demoTransferParams None) = Ok c
            /\ cellQueryId c = 0
            /\ dateNow (demoWorld 100) = 1700000000000
            /\ cellQueryId c <> dateNow (demoWorld 100).
Proof.
  destruct (nftTransferBody (demoTransferParams None)) as [c|e] eqn:Hc;
    [|vm_compute in Hc; discriminate Hc].
  exists c. split; [reflexivity|].
  vm_compute in Hc. inversion Hc; subst c.
  split; [reflexivity|]. split; [reflexivity|]. vm_compute; discriminate.
Qed.

(** C4 (as amended).  All three encoders take an optional query id and
    write 0 when it is absent, the transfer encoder included; the
    time-derived query id of a transfer is passed explicitly by
    [createNftTransfer], the only caller of the transfer encoder, so the
    body of every message it assembles carries the current time. *)
Theorem absent_queryId_defaults_to_zero :
  (forall p c, queryId p = None -> nftTransferBody p = Ok c ->
               cellQueryId c = 0)
  /\ (forall c, nftRenewBody None = Ok c -> cellQueryId c = 0)
  /\ (forall c, nftRenewBody (Some (mkRenewParams None)) = Ok c ->
                cellQueryId c = 0)
  /\ (forall w p c, linkQueryId p = None -> nftLinkBody w p = Ok c ->
                    cellQueryId c = 0)
  /\ (forall w seqno ws recipient nft amount payload key s st k to v body,
        In (CreateTransferMessage s st k to v body)
           (trace (createNftTransfer w seqno ws recipient nft amount payload
                     key)) ->
        cellQueryId body = dateNow w).
Proof.
  split; [|split; [|split; [|split]]].
  - intros p c Hq H. apply nftTransferBody_head in H as [_ ->].
    now rewrite Hq.
  - intros c H. now apply nftRenewBody_head in H as [_ ->].
  - intros c H. now apply nftRenewBody_head in H as [_ ->].
  - intros w p c Hq H. apply nftLinkBody_head in H as [_ ->].
    now rewrite Hq.
  - intros. eapply createNftTransfer_queryId; eassumption.
Qed.

Lemma absent_queryId_defaults_to_zero_witness :
  exists c, nftTransferBody (demoTransferParams None) = Ok c
            /\ cellQueryId c = 0.
Proof.
  destruct (nftTransferBody (demoTransferParams None)) as [c|e] eqn:Hc;
    [|vm_compute in Hc; discriminate Hc].
  exists c. split; [reflexivity|].
  exact (proj1 absent_queryId_defaults_to_zero (demoTransferParams None) c
           eq_refl Hc).
Defined.

(** C5.  In [sendNftTransfer], for any protocol minimum, a final amount of
    at most 0 makes the run fail with no message assembled and nothing
    broadcast; the failure is InvalidAmount as soon as the service-time
    check and the secret retrieval, which come first, have succeeded.  No
    message is ever assembled with a value of 0 or less. *)
Theorem sendNftTransfer_rejects_nonpositive_amount
    (min : Z) (w : World) (ws : WalletState) (r : TonRecipientData)
    (n : NftItemRepr) (fee : MessageConsequences) (pw : string) :
  let run := sendNftTransferMin min w ws r n fee pw in
  (nftTransferAmount min (extra fee) <= 0 ->
     (exists e, outcome run = Err e)
     /\ never isAssemble (trace run)
     /\ never isBroadcast (trace run)
     /\ (serviceTimeOk w = true ->
         walletMnemonic w (publicKey ws) pw <> None ->
         outcome run = Err (InvalidAmount (nftTransferAmount min (extra fee)))))
  /\ (forall seqno st key to value body,
        In (CreateTransferMessage seqno st key to value body) (trace run) ->
        0 < value).
Proof.
  cbv zeta. split.
  - intros Hle. apply Z.leb_le in Hle.
    split; [|split; [|split]].
    + run_cases; try congruence; eexists; reflexivity.
    + run_cases; try congruence; solve_never.
    + run_cases; try congruence; solve_never.
    + intros Hs Hm. run_cases; congruence.
  - intros seqno st key to value body H.
    now apply sendNftTransferMin_attached in H.
Qed.

Lemma sendNftTransfer_rejects_nonpositive_amount_witness :
  outcome (sendNftTransferMin 0 (demoWorld 100) demoWallet demoRecipient
             demoNft (mkConsequences 3) "secret")
  = Err (InvalidAmount 0).
Proof.
  destruct (sendNftTransfer_rejects_nonpositive_amount 0 (demoWorld 100)
              demoWallet demoRecipient demoNft (mkConsequences 3) "secret")
    as [Hguard _].
  destruct Hguard as (_ & _ & _ & Hfail); [vm_compute; discriminate|].
  apply Hfail; [reflexivity | discriminate].
Defined.

(** C6.  Each of the three estimate entry points starts with the
    service-time check, runs it and the positive-balance check before the
    message is assembled, fails with ServiceUnavailable or EmptyBalance
    before anything is encoded when one of them fails, and never calls the
    secret store or the key derivation.  It assembles its message with the
    64 zero bytes of the placeholder key: every assembler call has that
    key, the entry point returns normally only after such a call, and the
    call is made, for the fetched sequence number and the body of the
    operation, as soon as both checks have passed and the body is
    encoded. *)
Theorem estimate_paths_discipline (w : World) :
  (forall ws r n,
     estimateDiscipline w ws (estimateNftTransfer w ws r n)
     /\ returnsAfterPlaceholderAssembly ws (estimateNftTransfer w ws r n)
     /\ (forall wallet seqno owner response body,
           serviceTimeOk w = true ->
           accountState w ws = Some (wallet, seqno) ->
           0 < balance wallet ->
           parsedAddress w (toAccountRaw r) = Some owner ->
           parsedAddress w (rawAddress ws) = Some response ->
           nftTransferBody
             (mkTransferParams (Some (dateNow w)) owner response 1
                (commentPayload w r)) = Ok body ->
           In (CreateTransferMessage seqno ws (Buffer_alloc 64)
                 (nftItemAddress n) 1000000000 body)
              (trace (estimateNftTransfer w ws r n))))
  /\ (forall options,
        estimateDiscipline w (erWalletState options)
          (estimateNftRenew w options)
        /\ returnsAfterPlaceholderAssembly (erWalletState options)
             (estimateNftRenew w options)
        /\ (forall wallet seqno body,
              serviceTimeOk w = true ->
              accountState w (erWalletState options)
              = Some (wallet, seqno) ->
              0 < balance wallet ->
              nftRenewBody None = Ok body ->
              In (CreateTransferMessage seqno (erWalletState options)
                    (Buffer_alloc 64) (erNftAddress options)
                    (erAmount options) body)
                 (trace (estimateNftRenew w options))))
  /\ (forall options,
        estimateDiscipline w (elWalletState options)
          (estimateNftLink w options)
        /\ returnsAfterPlaceholderAssembly (elWalletState options)
             (estimateNftLink w options)
        /\ (forall wallet seqno body,
              serviceTimeOk w = true ->
              accountState w (elWalletState options)
              = Some (wallet, seqno) ->
              0 < balance wallet ->
              nftLinkBody w (mkLinkParams None (elLinkToAddress options))
              = Ok body ->
              In (CreateTransferMessage seqno (elWalletState options)
                    (Buffer_alloc 64) (elNftAddress options)
                    (elAmount options) body)
                 (trace (estimateNftLink w options)))).
Proof.
  split; [|split]; intros; (split; [|split]).
  - apply estimateNftTransfer_discipline.
  - apply estimateNftTransfer_placeholder.
  - apply estimateNftTransfer_assembles.
  - apply estimateNftRenew_discipline.
  - apply estimateNftRenew_placeholder.
  - apply estimateNftRenew_assembles.
  - apply estimateNftLink_discipline.
  - apply estimateNftLink_placeholder.
  - apply estimateNftLink_assembles.
Qed.

Lemma estimate_paths_discipline_witness :
  (exists body,
     nftLinkBody (demoWorld 100) (mkLinkParams None "0:abc") = Ok body
     /\ In (CreateTransferMessage 7 demoWallet (Buffer_alloc 64) "0:nft" 5
              body)
           (trace (estimateNftLink (demoWorld 100)
                     (mkEstimateLink demoWallet "0:nft" "0:abc" 5))))
  /\ estimateNftLink (demoWorld 0) (mkEstimateLink demoWallet "0:nft" "" 5)
     = ([CheckServiceTime; GetWalletBalance demoWallet;
         CheckWalletPositiveBalance (mkAccount 0)], Err EmptyBalance).
Proof.
  split.
  - destruct (nftLinkBody (demoWorld 100) (mkLinkParams None "0:abc"))
      as [body|e] eqn:Hbody; [|vm_compute in Hbody; discriminate Hbody].
    exists body. split; [reflexivity|].
    destruct (estimate_paths_discipline (demoWorld 100)) as (_ & _ & Hlink).
    destruct (Hlink (mkEstimateLink demoWallet "0:nft" "0:abc" 5))
      as (_ & _ & Hassembles).
    apply (Hassembles (mkAccount 100) 7 body);
      [reflexivity | reflexivity | simpl; lia | exact Hbody].
  - destruct (estimate_paths_discipline (demoWorld 0)) as (_ & _ & Hlink).
    destruct (Hlink (mkEstimateLink demoWallet "0:nft" "" 5))
      as ((_ & _ & _ & _ & Hempty & _) & _).
    apply (Hempty (mkAccount 0) 7); [reflexivity | reflexivity | simpl; lia].
Defined.

(** C9.  For every fee delta the final amount of [sendNftTransfer] is at
    least the minimum 50000000 and so strictly positive: the guard on a
    final amount of at most 0 is never taken, and no run of
    [sendNftTransfer] ends with InvalidAmount. *)
Theorem sendNftTransfer_amount_positive :
  (forall feeExtra,
     50000000 <= nftTransferAmount minTransfer feeExtra
     /\ 0 < nftTransferAmount minTransfer feeExtra
     /\ (nftTransferAmount minTransfer feeExtra <=? 0) = false)
  /\ (forall w ws r n fee pw amount,
        outcome (sendNftTransfer w ws r n fee pw)
        <> Err (InvalidAmount amount)).
Proof.
  assert (Hpos : forall x, 50000000 <= nftTransferAmount minTransfer x).
  { intros x. rewrite nftTransferAmount_max, minTransfer_value. lia. }
  split.
  - intros x. specialize (Hpos x).
    split; [exact Hpos|]. split; [lia|]. apply Z.leb_gt. lia.
  - intros w ws r n fee pw amount. run_cases; last_call; try discriminate.
    + match goal with
      | Hc : (_ <=? 0) = true |- _ =>
          apply Z.leb_le in Hc; specialize (Hpos (extra fee)); lia
      end.
    + match goal with
      | Hr : rbind _ _ = Err _ |- _ =>
          apply transferBody_of_strings_Err in Hr as [->| ->]; discriminate
      end.
Qed.

(** * Further properties of the service *)

(** ** More on the encoders *)

Lemma storeInt_Ok_range (v : Z) (w : nat) (b b' : Builder) :
  storeInt v (S w) b = Ok b' -> - 2 ^ Z.of_nat w <= v < 2 ^ Z.of_nat w.
Proof.
  unfold storeInt.
  destruct (Z.leb_spec (- 2 ^ Z.of_nat w) v);
    destruct (Z.ltb_spec v (2 ^ Z.of_nat w)); simpl; intros Heq;
    try discriminate; lia.
Qed.

Lemma storeAddress_Ok_valid (a : Address) (b b' : Builder) :
  storeAddress a b = Ok b' -> validAddress a.
Proof.
  unfold storeAddress. intros H.
  apply rbind_Ok in H as (b3 & H' & _).
  apply rbind_Ok in H' as (b2 & _ & H3).
  apply storeInt_Ok_range in H3. exact H3.
Qed.

Lemma sizeBytes_small (v : Z) :
  0 < v -> sizeBytes v < 16 -> v < 2 ^ 120.
Proof.
  intros Hpos Hs. unfold sizeBytes in Hs.
  apply Z.log2_lt_pow2; [exact Hpos|].
  pose proof (Z.div_mod (Z.log2 v + 1 + 7) 8 ltac:(lia)) as Hdm.
  pose proof (Z.mod_pos_bound (Z.log2 v + 1 + 7) 8 ltac:(lia)) as Hmb.
  lia.
Qed.

Lemma storeCoins_Ok_range (amount : Z) (b b' : Builder) :
  storeCoins amount b = Ok b' -> 0 <= amount < 2 ^ 120.
Proof.
  unfold storeCoins.
  destruct (Z.ltb_spec amount 0); [discriminate|].
  destruct (Z.eqb_spec amount 0) as [->|Hnz]; intros Heq.
  - split; [lia | reflexivity].
  - apply rbind_Ok in Heq as (b1 & H1 & _).
    apply storeUint_Ok in H1 as [_ [_ Hs]].
    split; [lia|]. apply sizeBytes_small; [lia | exact Hs].
Qed.

Lemma nftTransferBody_Ok_range (p : NftTransferParams) (c : Cell) :
  nftTransferBody p = Ok c -> transferInRange p.
Proof.
  unfold nftTransferBody, transferInRange. intros H.
  repeat match goal with
    | Hb : rbind _ _ = Ok _ |- _ => apply rbind_Ok in Hb as (? & ? & ?)
    end.
  repeat match goal with
    | Hs : storeUint (orZero _) 64 _ = Ok _ |- _ =>
        apply storeUint_Ok in Hs as [_ ?]
    | Hs : storeAddress _ _ = Ok _ |- _ => apply storeAddress_Ok_valid in Hs
    | Hs : storeCoins _ _ = Ok _ |- _ => apply storeCoins_Ok_range in Hs
    end.
  unfold fitsUint.
  split; [assumption | split; [assumption | split; assumption]].
Qed.

Lemma nftTransferBody_Err_range (p : NftTransferParams) (e : Error) :
  nftTransferBody p = Err e -> e = RangeError.
Proof.
  unfold nftTransferBody. intros H. encoder_err; assumption.
Qed.

(** X1.  The transfer encoder returns a cell exactly when the query id
    (after the default) fits 64 unsigned bits, both workchains fit a signed
    byte and the forward amount fits a 120-bit coin field; on every other
    input it throws a RangeError. *)
Theorem nftTransferBody_succeeds_iff (p : NftTransferParams) :
  (transferInRange p ->
   nftTransferBody p
   = Ok (mkCell (transferBits p) (maybeRefs (forwardPayload p))))
  /\ (~ transferInRange p -> nftTransferBody p = Err RangeError)
  /\ (forall c, nftTransferBody p = Ok c -> transferInRange p).
Proof.
  split; [|split].
  - intros (Hq & Ho & Hr & Ha). now apply nftTransferBody_fits.
  - intros Hbad. destruct (nftTransferBody p) as [c|e] eqn:H.
    + elim Hbad. now apply nftTransferBody_Ok_range in H.
    + now apply nftTransferBody_Err_range in H as ->.
  - intros c H. now apply nftTransferBody_Ok_range in H.
Qed.

Lemma nftTransferBody_succeeds_iff_witness :
  nftTransferBody (demoTransferParams (Some (-1))) = Err RangeError
  /\ exists c, nftTransferBody (demoTransferParams (Some 7)) = Ok c.
Proof.
  split.
  - apply (proj1 (proj2 (nftTransferBody_succeeds_iff
                           (demoTransferParams (Some (-1)))))).
    intros (Hq & _). destruct Hq as [Hq _]. vm_compute in Hq. now apply Hq.
  - eexists.
    apply (proj1 (nftTransferBody_succeeds_iff (demoTransferParams (Some 7)))).
    repeat split; try (now vm_compute).
Defined.

Lemma coinsBits_length_exact (amount : Z) :
  0 <= amount < 2 ^ 120 ->
  (4 <= List.length (coinsBits amount) <= 124)%nat
  /\ (amount = 1 -> List.length (coinsBits amount) = 12%nat).
Proof.
  intros Ha. split.
  - split; [|now apply coinsBits_length].
    unfold coinsBits. destruct (amount =? 0).
    + rewrite uintBits_length. lia.
    + rewrite length_app, uintBits_length. lia.
  - intros ->. reflexivity.
Qed.

Lemma nftTransferBody_length (p : NftTransferParams) (c : Cell) :
  nftTransferBody p = Ok c ->
  List.length (cellBits c)
  = (632 + List.length (coinsBits (forwardAmount p)))%nat
  /\ (636 <= List.length (cellBits c) <= 756)%nat
  /\ (List.length (cellRefs c) <= 1)%nat
  /\ (forwardAmount p = nftTransferForwardAmount ->
      List.length (cellBits c) = 644%nat).
Proof.
  intros H. pose proof (nftTransferBody_Ok_range p c H) as (_ & _ & _ & Ha).
  apply nftTransferBody_Ok in H as ->.
  destruct (coinsBits_length_exact _ Ha) as [Hlen Hone].
  assert (Hbits : List.length (transferBits p)
                  = (632 + List.length (coinsBits (forwardAmount p)))%nat).
  { unfold transferBits.
    rewrite !length_app, !uintBits_length, !addressBits_length.
    destruct (forwardPayload p); simpl; lia. }
  cbn [cellBits cellRefs]. rewrite Hbits.
  split; [reflexivity|]. split; [lia|]. split.
  - destruct (forwardPayload p); simpl; lia.
  - intros Hone'. rewrite (Hone Hone'). reflexivity.
Qed.

(** X2.  Every cell the transfer encoder returns has 632 bits of fixed
    fields plus the coin field, between 636 and 756 bits in all and so
    within the 1023 bits of a cell, and at most one reference; with the
    forward amount 1 that the service passes it has exactly 644 bits. *)
Theorem nftTransferBody_size (p : NftTransferParams) (c : Cell) :
  nftTransferBody p = Ok c ->
  List.length (cellBits c)
  = (632 + List.length (coinsBits (forwardAmount p)))%nat
  /\ (636 <= List.length (cellBits c) <= 756)%nat
  /\ (List.length (cellRefs c) <= 1)%nat
  /\ (forwardAmount p = nftTransferForwardAmount ->
      List.length (cellBits c) = 644%nat).
Proof. apply nftTransferBody_length. Qed.

Lemma nftTransferBody_size_witness :
  exists c, nftTransferBody (demoTransferParams None) = Ok c
            /\ List.length (cellBits c) = 644%nat.
Proof.
  destruct (nftTransferBody (demoTransferParams None)) as [c|e] eqn:Hc;
    [|vm_compute in Hc; discriminate Hc].
  exists c. split; [reflexivity|].
  apply (nftTransferBody_size (demoTransferParams None) c Hc). reflexivity.
Defined.

Lemma app_same_length {A : Type} (l1 l2 r1 r2 : list A) :
  List.length l1 = List.length l2 ->
  (l1 ++ r1 = l2 ++ r2)%list -> l1 = l2 /\ r1 = r2.
Proof.
  revert l2. induction l1 as [|x l1 IH]; intros [|y l2] Hlen Heq;
    simpl in *; try discriminate.
  - split; [reflexivity | exact Heq].
  - inversion Heq; subst. destruct (IH l2) as [-> ->]; [lia | assumption|].
    split; reflexivity.
Qed.

Lemma uintBits_inj (w : nat) (a b : Z) :
  fitsUint w a -> fitsUint w b -> uintBits w a = uintBits w b -> a = b.
Proof.
  intros Ha Hb Heq.
  rewrite <- (bitsToZ_uintBits w a Ha), <- (bitsToZ_uintBits w b Hb).
  now rewrite Heq.
Qed.

Lemma cons_eq {A : Type} (x y : A) (l l' : list A) :
  x :: l = y :: l' -> x = y /\ l = l'.
Proof. intros H. now inversion H. Qed.

Lemma intBits8_inj (a b : Z) :
  -128 <= a < 128 -> -128 <= b < 128 -> intBits 8 a = intBits 8 b -> a = b.
Proof.
  intros Ha Hb Heq. unfold intBits in Heq.
  apply cons_eq in Heq as [Hsign Hrest].
  assert (H128 : 2 ^ Z.of_nat 7 = 128) by reflexivity.
  destruct (Z.ltb_spec a 0); destruct (Z.ltb_spec b 0); try discriminate;
    apply uintBits_inj in Hrest; unfold fitsUint; lia.
Qed.

Lemma addressBits_inj (a b : Address) :
  validAddress a -> validAddress b -> hashFits a -> hashFits b ->
  addressBits a = addressBits b -> a = b.
Proof.
  unfold addressBits, validAddress, hashFits. intros Ha Hb Hha Hhb Heq.
  apply app_same_length in Heq as [_ Heq]; [|reflexivity].
  apply app_same_length in Heq as [_ Heq]; [|reflexivity].
  apply app_same_length in Heq as [Hwc Hh];
    [|now rewrite !intBits_length].
  apply intBits8_inj in Hwc; try assumption.
  apply uintBits_inj in Hh; try assumption.
  destruct a, b; simpl in *; congruence.
Qed.

Lemma coinsBits_inj (a b : Z) :
  0 <= a < 2 ^ 120 -> 0 <= b < 2 ^ 120 ->
  coinsBits a = coinsBits b -> a = b.
Proof.
  intros Ha Hb Heq. unfold coinsBits in Heq.
  destruct (Z.eqb_spec a 0) as [->|Hna]; destruct (Z.eqb_spec b 0) as [->|Hnb];
    try reflexivity.
  - destruct (sizeBytes_bounds b ltac:(lia)) as [Hs _].
    apply (f_equal (@List.length bool)) in Heq.
    rewrite length_app, !uintBits_length in Heq. lia.
  - destruct (sizeBytes_bounds a ltac:(lia)) as [Hs _].
    apply (f_equal (@List.length bool)) in Heq.
    rewrite length_app, !uintBits_length in Heq. lia.
  - destruct (sizeBytes_bounds a ltac:(lia)) as [Hsa Hua].
    destruct (sizeBytes_bounds b ltac:(lia)) as [Hsb Hub].
    apply app_same_length in Heq as [Hsize Hval];
      [|now rewrite !uintBits_length].
    assert (H16 : 2 ^ Z.of_nat 4 = 16) by reflexivity.
    apply uintBits_inj in Hsize; [|unfold fitsUint; lia..].
    rewrite <- Hsize in Hval, Hub.
    apply uintBits_inj in Hval; [exact Hval| |];
      unfold fitsUint; rewrite Z2Nat.id by lia;
      (split; [lia | assumption]).
Qed.

Lemma mkCell_eq (b b' : list bool) (r r' : list Cell) :
  mkCell b r = mkCell b' r' -> b = b' /\ r = r'.
Proof. intros H. now inversion H. Qed.

Lemma maybe_inj (x y : option Cell) :
  maybeBit x = maybeBit y -> maybeRefs x = maybeRefs y -> x = y.
Proof.
  destruct x, y; simpl; intros Hb Hr; try discriminate; congruence.
Qed.

(** X3.  The transfer body determines what was encoded: two parameter
    records with 32-byte address hashes that the encoder maps to the same
    cell have the same effective query id, new owner, response address,
    forward amount and forward payload. *)
Theorem nftTransferBody_injective (p p' : NftTransferParams) (c : Cell) :
  hashFits (newOwnerAddress p) -> hashFits (responseAddress p) ->
  hashFits (newOwnerAddress p') -> hashFits (responseAddress p') ->
  nftTransferBody p = Ok c -> nftTransferBody p' = Ok c ->
  orZero (queryId p) = orZero (queryId p')
  /\ newOwnerAddress p = newOwnerAddress p'
  /\ responseAddress p = responseAddress p'
  /\ forwardAmount p = forwardAmount p'
  /\ forwardPayload p = forwardPayload p'.
Proof.
  intros Ho Hr Ho' Hr' H H'.
  pose proof (nftTransferBody_Ok_range p c H) as (Hq & Hvo & Hvr & Ha).
  pose proof (nftTransferBody_Ok_range p' c H') as (Hq' & Hvo' & Hvr' & Ha').
  apply nftTransferBody_Ok in H. apply nftTransferBody_Ok in H'.
  rewrite H in H'. apply mkCell_eq in H' as [Hbits Hrefs].
  unfold transferBits in Hbits.
  apply app_same_length in Hbits as [_ Hbits]; [|reflexivity].
  apply app_same_length in Hbits as [Hqid Hbits];
    [|now rewrite !uintBits_length].
  apply app_same_length in Hbits as [Hown Hbits];
    [|now rewrite !addressBits_length].
  apply app_same_length in Hbits as [Hresp Hbits];
    [|now rewrite !addressBits_length].
  apply app_same_length in Hbits as [_ Hbits]; [|reflexivity].
  assert (Htail : coinsBits (forwardAmount p) = coinsBits (forwardAmount p')
                  /\ maybeBit (forwardPayload p)
                     = maybeBit (forwardPayload p')).
  { destruct (forwardPayload p), (forwardPayload p');
      cbn [maybeBit] in Hbits |- *;
      apply app_inj_tail in Hbits as [Hc Hb]; split; congruence. }
  destruct Htail as [Hcoins Hbit].
  split; [now apply (uintBits_inj 64)|].
  split; [now apply addressBits_inj|].
  split; [now apply addressBits_inj|].
  split; [now apply coinsBits_inj | now apply maybe_inj].
Qed.

Lemma nftTransferBody_injective_witness :
  exists c, nftTransferBody (demoTransferParams None) = Ok c
            /\ nftTransferBody (demoTransferParams (Some 0)) = Ok c
            /\ orZero None = orZero (Some 0).
Proof.
  destruct (nftTransferBody (demoTransferParams None)) as [c|e] eqn:Hc;
    [|vm_compute in Hc; discriminate Hc].
  exists c. split; [reflexivity|].
  assert (Hc' : nftTransferBody (demoTransferParams (Some 0)) = Ok c)
    by exact Hc.
  split; [exact Hc'|].
  assert (Hh : forall h, 0 <= h < 100 -> hashFits (mkAddress 0 h)
                                          /\ hashFits (mkAddress (-1) h)).
  { intros h Hh. unfold hashFits. cbn [hash].
    assert (H256 : 100 < 2 ^ 256) by reflexivity. lia. }
  exact (proj1 (nftTransferBody_injective (demoTransferParams None)
                  (demoTransferParams (Some 0)) c
                  (proj1 (Hh 11 ltac:(lia))) (proj2 (Hh 12 ltac:(lia)))
                  (proj1 (Hh 11 ltac:(lia))) (proj2 (Hh 12 ltac:(lia)))
                  Hc Hc')).
Defined.

Lemma nftRenewBody_Err_range (params : option NftRenewParams) (e : Error) :
  nftRenewBody params = Err e -> e = RangeError.
Proof.
  unfold nftRenewBody. intros H. encoder_err; assumption.
Qed.

(** X4.  The renew encoder returns a cell exactly when the query id (after
    the default) fits 64 unsigned bits and throws a RangeError otherwise;
    the cell has 352 bits - the tag 0x4eb1f0f9, the query id and 256 zero
    bits - and no reference, and reads back as that tag and query id. *)
Theorem nftRenewBody_layout (params : option NftRenewParams) :
  let q := match params with Some p => renewQueryId p | None => None end in
  (fitsUint 64 (orZero q) ->
   nftRenewBody params
   = Ok (mkCell (uintBits 32 0x4eb1f0f9 ++ uintBits 64 (orZero q)
                   ++ repeat false 256)%list []))
  /\ (~ fitsUint 64 (orZero q) -> nftRenewBody params = Err RangeError)
  /\ (forall c, nftRenewBody params = Ok c ->
        fitsUint 64 (orZero q)
        /\ List.length (cellBits c) = 352%nat
        /\ cellRefs c = []
        /\ cellOp c = 0x4eb1f0f9
        /\ cellQueryId c = orZero q).
Proof.
  intros q.
  assert (Hsucc : forall c, nftRenewBody params = Ok c ->
                            fitsUint 64 (orZero q)).
  { intros c H. unfold nftRenewBody in H. fold q in H. head_range.
    assumption. }
  split; [|split].
  - intros Hq. now apply (proj1 (nftRenewBody_eq params)).
  - intros Hbad. destruct (nftRenewBody params) as [c|e] eqn:H.
    + elim Hbad. now apply (Hsucc c).
    + now apply nftRenewBody_Err_range in H as ->.
  - intros c H. split; [now apply (Hsucc c)|].
    destruct (nftRenewBody_head params c H) as [Hop Hqid].
    apply (proj2 (nftRenewBody_eq params)) in H as ->.
    split; [|split; [reflexivity | split; assumption]].
    unfold renewBits. cbn [cellBits].
    now rewrite !length_app, !uintBits_length.
Qed.

Lemma nftRenewBody_layout_witness :
  nftRenewBody (Some (mkRenewParams (Some (-3)))) = Err RangeError
  /\ exists c, nftRenewBody None = Ok c /\ cellQueryId c = 0.
Proof.
  split.
  - apply (proj1 (proj2 (nftRenewBody_layout
                           (Some (mkRenewParams (Some (-3))))))).
    intros [Hq _]. vm_compute in Hq. now apply Hq.
  - destruct (nftRenewBody None) as [c|e] eqn:Hc;
      [|vm_compute in Hc; discriminate Hc].
    exists c. split; [reflexivity|].
    apply (proj2 (proj2 (nftRenewBody_layout None)) c Hc).
Defined.

Lemma storeAddress_Err_invalid (a : Address) (b : Builder) :
  ~ validAddress a -> storeAddress a b = Err RangeError.
Proof.
  intros Hbad. destruct (storeAddress a b) as [b'|e] eqn:H.
  - elim Hbad. now apply storeAddress_Ok_valid in H.
  - now apply storeAddress_Err in H as ->.
Qed.

Lemma addressToDNSAddressFormat_Ok_valid (w : World) (s : string)
    (b : Builder) (a : Address) :
  addressToDNSAddressFormat w s = Ok b -> parsedAddress w s = Some a ->
  validAddress a.
Proof.
  unfold addressToDNSAddressFormat, Address_parse. intros H Hp.
  rewrite Hp in H. cbn [orFail] in H.
  apply rbind_Ok in H as (b0 & _ & H). cbn [rbind] in H.
  apply rbind_Ok in H as (b1 & H & _).
  now apply storeAddress_Ok_valid in H.
Qed.

Lemma linkHead_fits (q : Z) :
  fitsUint 64 q ->
  (storeUint opChangeDnsRecord 32 beginCell >>= storeUint q 64
     >>= storeUint DNS_CATEGORY_WALLET 256)%result
  = Ok (appended beginCell
          (uintBits 32 opChangeDnsRecord ++ uintBits 64 q
             ++ uintBits 256 DNS_CATEGORY_WALLET) []).
Proof.
  intros Hq. unfold fitsUint in Hq.
  rewrite storeUint_fits by fits_side. cbn [rbind].
  rewrite storeUint_fits by fits_side. cbn [rbind].
  rewrite storeUint_fits by fits_side.
  now rewrite !appended_appended.
Qed.

Lemma nftLinkBody_Ok_range (w : World) (p : NftLinkParams) (c : Cell) :
  nftLinkBody w p = Ok c -> fitsUint 64 (orZero (linkQueryId p)).
Proof.
  unfold nftLinkBody. intros H. head_range. assumption.
Qed.

Lemma nftLinkBody_Ok_target (w : World) (p : NftLinkParams) (c : Cell) :
  nftLinkBody w p = Ok c ->
  linkToAddress p = ""
  \/ exists a, parsedAddress w (linkToAddress p) = Some a /\ validAddress a.
Proof.
  intros H. unfold nftLinkBody in H.
  apply rbind_Ok in H as (b0 & _ & H0).
  apply rbind_Ok in H0 as (b1 & H1 & _).
  destruct (linkToAddress p) as [|ch rest] eqn:Ht; [left; reflexivity|].
  right. cbn [truthy] in H1.
  apply rbind_Ok in H1 as (sub & Hsub & _).
  destruct (addressToDNSAddressFormat_Ok _ _ _ Hsub) as (a & Hp & _).
  exists a. split; [exact Hp|].
  now apply (addressToDNSAddressFormat_Ok_valid w (String ch rest) sub a).
Qed.

(** X5.  How the link encoder fails.  A query id that does not fit 64
    unsigned bits is a RangeError, whatever the target, because the query
    id is stored before the target is parsed; with a fitting query id, a
    non-empty target that does not parse is a FormatError and one that
    parses to a workchain outside a signed byte is a RangeError; and a cell
    is returned only for a fitting query id and a target that is empty or
    parses to a storable address. *)
Theorem nftLinkBody_failures (w : World) (p : NftLinkParams) :
  (~ fitsUint 64 (orZero (linkQueryId p)) ->
   nftLinkBody w p = Err RangeError)
  /\ (fitsUint 64 (orZero (linkQueryId p)) ->
      linkToAddress p <> "" ->
      parsedAddress w (linkToAddress p) = None ->
      nftLinkBody w p = Err FormatError)
  /\ (fitsUint 64 (orZero (linkQueryId p)) ->
      linkToAddress p <> "" ->
      forall a, parsedAddress w (linkToAddress p) = Some a ->
                ~ validAddress a ->
                nftLinkBody w p = Err RangeError)
  /\ (forall c, nftLinkBody w p = Ok c ->
        fitsUint 64 (orZero (linkQueryId p))
        /\ (linkToAddress p = ""
            \/ exists a, parsedAddress w (linkToAddress p) = Some a
                         /\ validAddress a)).
Proof.
  split; [|split; [|split]].
  - intros Hbad. destruct (nftLinkBody w p) as [c|e] eqn:H.
    + elim Hbad. now apply nftLinkBody_Ok_range in H.
    + unfold nftLinkBody in H.
      apply rbind_Err in H as [H|(b & Hb & _)].
      * encoder_err; congruence.
      * elim Hbad. apply rbind_Ok in Hb as (b1 & Hb & _).
        apply head_store in Hb. apply Hb.
  - intros Hq Hne Hp. unfold nftLinkBody.
    rewrite (linkHead_fits _ Hq). cbn [rbind].
    destruct (linkToAddress p) as [|ch rest] eqn:Ht; [now elim Hne|].
    cbn [truthy]. unfold addressToDNSAddressFormat, Address_parse.
    rewrite storeUint_fits by fits_side. cbn [rbind].
    rewrite Hp. reflexivity.
  - intros Hq Hne a Hp Hbad. unfold nftLinkBody.
    rewrite (linkHead_fits _ Hq). cbn [rbind].
    destruct (linkToAddress p) as [|ch rest] eqn:Ht; [now elim Hne|].
    cbn [truthy]. unfold addressToDNSAddressFormat, Address_parse.
    rewrite storeUint_fits by fits_side. cbn [rbind].
    rewrite Hp. cbn [orFail rbind].
    rewrite (storeAddress_Err_invalid a _ Hbad). reflexivity.
  - intros c H. split; [now apply nftLinkBody_Ok_range in H|].
    now apply (nftLinkBody_Ok_target w p c).
Qed.

Lemma nftLinkBody_failures_witness :
  nftLinkBody (demoWorld 100) (mkLinkParams (Some (-1)) "0:abc")
  = Err RangeError
  /\ nftLinkBody
       (mkWorld (fun _ => None) (commentCell (demoWorld 100)) 0 true
          (fun _ => None) (fun _ _ => None) (deriveKeyPair (demoWorld 100))
          (fun _ _ _ _ _ _ => None) (fun _ => "") (fun _ => None)
          (fun _ => false) (fun _ => false))
       (mkLinkParams None "not an address")
     = Err FormatError.
Proof.
  split.
  - apply (proj1 (nftLinkBody_failures (demoWorld 100)
                    (mkLinkParams (Some (-1)) "0:abc"))).
    intros [Hq _]. vm_compute in Hq. now apply Hq.
  - apply (proj1 (proj2 (nftLinkBody_failures _
                           (mkLinkParams None "not an address"))));
      [split; [now vm_compute | reflexivity] | discriminate | reflexivity].
Defined.

(** X6.  The link body has 352 bits; it determines the effective query id
    and the target: two inputs that give the same cell have the same
    effective query id, are both with or both without a target, and their
    targets parse to the same address when the hashes are 32-byte values. *)
Theorem nftLinkBody_injective (w w' : World) (p p' : NftLinkParams)
    (c : Cell) :
  nftLinkBody w p = Ok c -> nftLinkBody w' p' = Ok c ->
  List.length (cellBits c) = 352%nat
  /\ orZero (linkQueryId p) = orZero (linkQueryId p')
  /\ (linkToAddress p = "" <-> linkToAddress p' = "")
  /\ (forall a a',
        linkToAddress p <> "" ->
        parsedAddress w (linkToAddress p) = Some a ->
        parsedAddress w' (linkToAddress p') = Some a' ->
        hashFits a -> hashFits a' -> a = a').
Proof.
  intros H H'.
  pose proof (nftLinkBody_Ok_range w p c H) as Hq.
  pose proof (nftLinkBody_Ok_range w' p' c H') as Hq'.
  pose proof (nftLinkBody_Ok_target w p c H) as Hv.
  pose proof (nftLinkBody_Ok_target w' p' c H') as Hv'.
  destruct (nftLinkBody_Ok w p c H) as [Hbits Hrefs].
  destruct (nftLinkBody_Ok w' p' c H') as [Hbits' Hrefs'].
  split; [|split; [|split]].
  - rewrite Hbits. unfold linkBits.
    now rewrite !length_app, !uintBits_length.
  - rewrite Hbits in Hbits'. unfold linkBits in Hbits'.
    apply app_same_length in Hbits' as [_ Hbits']; [|reflexivity].
    apply app_same_length in Hbits' as [Hqid _];
      [|now rewrite !uintBits_length].
    now apply (uintBits_inj 64).
  - destruct (linkToAddress p) as [|ch rest];
      destruct (linkToAddress p') as [|ch' rest']; cbn [truthy] in *;
      split; intros Hx; try reflexivity; try discriminate.
    + destruct Hrefs' as (a' & _ & Hr'). rewrite Hrefs in Hr'. discriminate.
    + destruct Hrefs as (a & _ & Hr). rewrite Hrefs' in Hr. discriminate.
  - intros a a' Hne Hp Hp' Hh Hh'.
    destruct (linkToAddress p) as [|ch rest] eqn:Ht; [now elim Hne|].
    cbn [truthy] in Hrefs. destruct Hrefs as (a0 & Hp0 & Hr).
    rewrite Hp in Hp0. inversion Hp0; subst a0.
    destruct Hv as [Hv|(a1 & Hp1 & Hva)]; [discriminate|].
    rewrite Hp in Hp1. inversion Hp1; subst a1.
    destruct (linkToAddress p') as [|ch' rest'] eqn:Ht'.
    + cbn [truthy] in Hrefs'. rewrite Hrefs' in Hr. discriminate.
    + cbn [truthy] in Hrefs'. destruct Hrefs' as (a2 & Hp2 & Hr').
      rewrite Hp' in Hp2. inversion Hp2; subst a2.
      destruct Hv' as [Hv'|(a3 & Hp3 & Hva')]; [discriminate|].
      rewrite Hp' in Hp3. inversion Hp3; subst a3.
      rewrite Hr in Hr'. apply cons_eq in Hr' as [Hcell _].
      unfold dnsAddressCell in Hcell. apply mkCell_eq in Hcell as [Hb _].
      apply app_same_length in Hb as [_ Hb]; [|reflexivity].
      apply app_same_length in Hb as [Hb _];
        [|now rewrite !addressBits_length].
      now apply addressBits_inj.
Qed.

Lemma nftLinkBody_injective_witness :
  exists c, nftLinkBody (demoWorld 100) (mkLinkParams None "0:abc") = Ok c
            /\ nftLinkBody (demoWorld 5) (mkLinkParams (Some 0) "0:xyz") = Ok c
            /\ List.length (cellBits c) = 352%nat.
Proof.
  destruct (nftLinkBody (demoWorld 100) (mkLinkParams None "0:abc"))
    as [c|e] eqn:Hc; [|vm_compute in Hc; discriminate Hc].
  exists c. split; [reflexivity|].
  assert (Hc' : nftLinkBody (demoWorld 5) (mkLinkParams (Some 0) "0:xyz")
                = Ok c) by exact Hc.
  split; [exact Hc'|].
  exact (proj1 (nftLinkBody_injective (demoWorld 100) (demoWorld 5)
                  (mkLinkParams None "0:abc") (mkLinkParams (Some 0) "0:xyz")
                  c Hc Hc')).
Defined.

(** ** More on the entry points *)

(** X7.  Every message [createNftTransfer] hands to the assembler carries
    the sequence number, wallet state, destination and value it was given
    and the given key, or 64 zero bytes when none is given; its body is the
    transfer body for the parsed recipient as new owner, the wallet's own
    parsed address as response address, the forward amount 1, the given
    payload and the clock reading as query id. *)
Theorem createNftTransfer_message (w : World) (seqno : Z) (ws : WalletState)
    (recipient nft : string) (amount : Z) (payload : option Cell)
    (key : option Buffer) :
  forall s st k to v body,
    In (CreateTransferMessage s st k to v body)
       (trace (createNftTransfer w seqno ws recipient nft amount payload
                 key)) ->
    s = seqno /\ st = ws /\ to = nft /\ v = amount
    /\ k = match key with Some given => given | None => repeat Byte.x00 64 end
    /\ exists owner response,
         parsedAddress w recipient = Some owner
         /\ parsedAddress w (rawAddress ws) = Some response
         /\ nftTransferBody
              (mkTransferParams (Some (dateNow w)) owner response 1 payload)
            = Ok body.
Proof.
  intros s st k to v body. run_cases; intros H; in_trace H.
  repeat (split; [reflexivity|]).
  match goal with
  | Hr : rbind _ _ = Ok _ |- _ =>
      apply transferBody_of_strings_Ok in Hr as (a & b & Ha & Hb & Hr)
  end.
  exists a, b. repeat split; assumption.
Qed.

Lemma createNftTransfer_message_witness :
  exists body,
    In (CreateTransferMessage 7 demoWallet (repeat Byte.x00 64) "0:nft" 5
          body)
       (trace (createNftTransfer (demoWorld 100) 7 demoWallet "0:recipient"
                 "0:nft" 5 None None))
    /\ cellQueryId body = 1700000000000.
Proof.
  destruct (nftTransferBody
              (mkTransferParams (Some 1700000000000) (mkAddress 0 11)
                 (mkAddress 0 8) 1 None)) as [body|e] eqn:Hbody;
    [|vm_compute in Hbody; discriminate Hbody].
  exists body.
  assert (Hin : In (CreateTransferMessage 7 demoWallet (repeat Byte.x00 64)
                      "0:nft" 5 body)
                   (trace (createNftTransfer (demoWorld 100) 7 demoWallet
                             "0:recipient" "0:nft" 5 None None))).
  { vm_compute in Hbody. inversion Hbody; subst body. find_event. }
  split; [exact Hin|].
  destruct (createNftTransfer_message _ _ _ _ _ _ _ _ _ _ _ _ _ _ Hin)
    as (_ & _ & _ & _ & _ & a & b & _ & _ & Hb).
  apply nftTransferBody_head in Hb as [_ Hq]. exact Hq.
Defined.

(** X8.  [createNftTransfer] calls the assembler at most once and only
    with an encoded body: when the recipient or the wallet's own address
    does not parse it fails with FormatError, and when the clock reading
    does not fit 64 unsigned bits with RangeError, in both cases without
    any call. *)
Theorem createNftTransfer_failures (w : World) (seqno : Z)
    (ws : WalletState) (recipient nft : string) (amount : Z)
    (payload : option Cell) (key : option Buffer) :
  let run := createNftTransfer w seqno ws recipient nft amount payload key in
  (parsedAddress w recipient = None \/ parsedAddress w (rawAddress ws) = None
   -> run = ([], Err FormatError))
  /\ (forall owner response,
        parsedAddress w recipient = Some owner ->
        parsedAddress w (rawAddress ws) = Some response ->
        ~ fitsUint 64 (orZero (Some (dateNow w))) ->
        run = ([], Err RangeError))
  /\ (countCalls isAssemble (trace run) <= 1)%nat.
Proof.
  cbv zeta. split; [|split].
  - intros Hbad. rewrite (run_eta (createNftTransfer _ _ _ _ _ _ _ _)).
    run_cases.
    + match goal with
      | Hr : rbind _ _ = Ok _ |- _ =>
          apply transferBody_of_strings_Ok in Hr as (o1 & o2 & Ho1 & Ho2 & _)
      end.
      destruct Hbad; congruence.
    + match goal with
      | Hr : rbind _ _ = Err _ |- _ =>
          unfold Address_parse in Hr;
          destruct (parsedAddress w recipient) as [o1|];
          [|cbn in Hr; congruence];
          destruct (parsedAddress w (rawAddress ws)) as [o2|];
          [|cbn in Hr; congruence]
      end.
      destruct Hbad; discriminate.
  - intros owner response Ho Hr Hbad.
    rewrite (run_eta (createNftTransfer _ _ _ _ _ _ _ _)).
    run_cases;
      match goal with
      | Hx : rbind _ _ = _ |- _ =>
          unfold Address_parse in Hx; rewrite Ho, Hr in Hx;
          cbn [orFail rbind] in Hx
      end.
    + elim Hbad.
      match goal with
      | Hx : nftTransferBody _ = Ok _ |- _ =>
          apply nftTransferBody_Ok_range in Hx as [Hq _]; exact Hq
      end.
    + match goal with
      | Hx : nftTransferBody _ = Err _ |- _ =>
          apply nftTransferBody_Err_range in Hx as ->
      end.
      reflexivity.
  - run_cases; cbn; lia.
Qed.

Lemma createNftTransfer_failures_witness :
  createNftTransfer (demoWorld 100) 7 demoWallet "" "0:nft" 5 None None
  = ([], Err FormatError).
Proof.
  apply (proj1 (createNftTransfer_failures (demoWorld 100) 7 demoWallet ""
                  "0:nft" 5 None None)).
  left. reflexivity.
Defined.

(** X9.  [estimateNftTransfer] returns a result only after the full
    sequence of five calls - service time, balance query, positive-balance
    check on a positive balance, assembly and emulation - and the result is
    the answer of the emulation endpoint to the serialized assembled
    message; that message is built with the fetched sequence number, 64
    zero bytes as key, the item's address as destination and the fixed
    value of 1 TON (1000000000 nano). *)
Theorem estimateNftTransfer_success (w : World) (ws : WalletState)
    (r : TonRecipientData) (n : NftItemRepr) (res : MessageConsequences)
    (t : list Event) :
  estimateNftTransfer w ws r n = (t, Ok res) ->
  exists wallet seqno body cell,
    serviceTimeOk w = true
    /\ accountState w ws = Some (wallet, seqno)
    /\ 0 < balance wallet
    /\ transferMessage w seqno ws (repeat Byte.x00 64) (nftItemAddress n)
         1000000000 body = Some cell
    /\ emulateMessage w (toBase64 w cell) = Some res
    /\ t = [CheckServiceTime; GetWalletBalance ws;
            CheckWalletPositiveBalance wallet;
            CreateTransferMessage seqno ws (repeat Byte.x00 64)
              (nftItemAddress n) 1000000000 body;
            EmulateMessageToWallet (toBase64 w cell)].
Proof.
  run_equation.
  match goal with
  | Hc : (balance ?a <=? 0) = false, Hs : accountState _ _ = Some (?a, ?z),
    Ht : transferMessage _ _ _ _ _ _ ?b = Some ?c |- _ =>
      exists a, z, b, c; apply Z.leb_gt in Hc
  end.
  repeat split; assumption.
Qed.

Lemma estimateNftTransfer_success_witness :
  exists t, estimateNftTransfer (demoWorld 100) demoWallet demoRecipient
              demoNft = (t, Ok (mkConsequences (-5000000)))
            /\ List.length t = 5%nat.
Proof.
  destruct (estimateNftTransfer (demoWorld 100) demoWallet demoRecipient
              demoNft) as [t res] eqn:Hrun.
  assert (Hres : res = Ok (mkConsequences (-5000000))).
  { vm_compute in Hrun. now inversion Hrun. }
  subst res. exists t. split; [reflexivity|].
  destruct (estimateNftTransfer_success _ _ _ _ _ _ Hrun)
    as (wallet & seqno & body & cell & _ & _ & _ & _ & _ & ->).
  reflexivity.
Defined.

(** X10.  [sendNftTransfer] stops at the first failing collaborator: an
    unavailable service ends the run after the service-time call alone; a
    wrong password ends it after the secret-store call, before any key is
    derived or the balance fetched; a failed balance query ends it before
    any check, assembly or broadcast. *)
Theorem sendNftTransfer_early_failures (w : World) (ws : WalletState)
    (r : TonRecipientData) (n : NftItemRepr) (fee : MessageConsequences)
    (pw : string) :
  let run := sendNftTransfer w ws r n fee pw in
  (serviceTimeOk w = false ->
   run = ([CheckServiceTime], Err ServiceUnavailable))
  /\ (serviceTimeOk w = true ->
      walletMnemonic w (publicKey ws) pw = None ->
      run = ([CheckServiceTime; GetWalletMnemonic (publicKey ws) pw],
             Err WrongPassword))
  /\ (forall words,
        serviceTimeOk w = true ->
        walletMnemonic w (publicKey ws) pw = Some words ->
        accountState w ws = None ->
        run = ([CheckServiceTime; GetWalletMnemonic (publicKey ws) pw;
                MnemonicToPrivateKey words; GetWalletBalance ws],
               Err RemoteRejection)).
Proof.
  cbv zeta.
  pose proof (fun x => nftTransferAmount_max minTransfer x) as Hmax.
  pose proof minTransfer_value as Hmin.
  split; [|split].
  - intros Hs. rewrite (run_eta (sendNftTransfer _ _ _ _ _ _)).
    run_cases; try congruence.
  - intros Hs Hm. rewrite (run_eta (sendNftTransfer _ _ _ _ _ _)).
    run_cases; try congruence.
  - intros words Hs Hm Ha. rewrite (run_eta (sendNftTransfer _ _ _ _ _ _)).
    run_cases; try congruence.
    match goal with
    | Hc : (_ <=? 0) = true |- _ =>
        apply Z.leb_le in Hc; rewrite Hmax in Hc; lia
    end.
Qed.

Lemma sendNftTransfer_early_failures_witness :
  sendNftTransfer (demoWorld 100) demoWallet demoRecipient demoNft
    (mkConsequences 0) "guess"
  = ([CheckServiceTime; GetWalletMnemonic "pub" "guess"], Err WrongPassword).
Proof.
  apply (proj1 (proj2 (sendNftTransfer_early_failures (demoWorld 100)
                         demoWallet demoRecipient demoNft (mkConsequences 0)
                         "guess"))); reflexivity.
Defined.

(** X11.  For a fee delta in the safe-integer range, [sendNftTransfer]
    succeeds only after the full sequence of seven calls, in this order:
    service time, secret store, key derivation, balance query, sufficiency
    check, assembly, broadcast.  The message is
    signed with the secret key derived from the words the store returned
    for the wallet's public key and the password, uses the fetched
    sequence number, goes to the item's address with the netted amount, the
    checked total is within the balance, and what is broadcast is the
    serialization of the assembled cell, which the endpoint accepted. *)
Theorem sendNftTransfer_success (w : World) (ws : WalletState)
    (r : TonRecipientData) (n : NftItemRepr) (fee : MessageConsequences)
    (pw : string) (t : list Event) :
  safeInteger (extra fee) ->
  sendNftTransfer w ws r n fee pw = (t, Ok tt) ->
  exists words wallet seqno body cell,
    let key := secretKey (deriveKeyPair w words) in
    let amount := Z.max 50000000 (50000000 - extra fee) in
    serviceTimeOk w = true
    /\ walletMnemonic w (publicKey ws) pw = Some words
    /\ accountState w ws = Some (wallet, seqno)
    /\ amount - extra fee <= balance wallet
    /\ transferMessage w seqno ws key (nftItemAddress n) amount body
       = Some cell
    /\ blockchainMessage w (toBase64 w cell) = true
    /\ t = [CheckServiceTime; GetWalletMnemonic (publicKey ws) pw;
            MnemonicToPrivateKey words; GetWalletBalance ws;
            CheckWalletBalance (amount - extra fee) wallet;
            CreateTransferMessage seqno ws key (nftItemAddress n) amount
              body;
            SendBlockchainMessage (toBase64 w cell)].
Proof.
  assert (Hamt : nftTransferAmount minTransfer (extra fee)
                 = Z.max 50000000 (50000000 - extra fee))
    by (rewrite nftTransferAmount_max; reflexivity).
  assert (Htot : total minTransfer (extra fee)
                 = Z.max 50000000 (50000000 - extra fee) - extra fee)
    by (rewrite total_minus, Hamt; reflexivity).
  intros _. run_equation.
  match goal with
  | Hc : (balance ?a <? _) = false, Hs : accountState _ _ = Some (?a, ?z),
    Hm : walletMnemonic _ _ _ = Some ?l,
    Ht : transferMessage _ _ _ _ _ _ ?b = Some ?c |- _ =>
      exists l, a, z, b, c; apply Z.ltb_ge in Hc
  end.
  cbv zeta. rewrite <- Htot, <- Hamt.
  repeat split; assumption.
Qed.

Lemma sendNftTransfer_success_witness :
  exists t, sendNftTransfer (demoWorld 1000000000) demoWallet demoRecipient
              demoNft (mkConsequences (-2)) "secret" = (t, Ok tt)
            /\ List.length t = 7%nat.
Proof.
  destruct (sendNftTransfer (demoWorld 1000000000) demoWallet demoRecipient
              demoNft (mkConsequences (-2)) "secret") as [t res] eqn:Hrun.
  assert (Hres : res = Ok tt).
  { vm_compute in Hrun. now inversion Hrun. }
  subst res. exists t. split; [reflexivity|].
  assert (Hsafe : safeInteger (-2)) by (split; now vm_compute).
  destruct (sendNftTransfer_success (demoWorld 1000000000) demoWallet
              demoRecipient demoNft (mkConsequences (-2)) "secret" t Hsafe
              Hrun)
    as (words & wallet & seqno & body & cell & Hall).
  cbv zeta in Hall.
  destruct Hall as (_ & _ & _ & _ & _ & _ & ->). reflexivity.
Defined.

(** X12.  The two amounts of [sendNftTransfer] by the sign of the fee
    delta, for a delta in the safe-integer range and any minimum: a delta
    of at most 0 (a cost) raises the attached amount to the minimum minus
    the delta and the checked total to the minimum minus twice the delta;
    a delta of at least 0 leaves the attached amount at the minimum and
    lowers the checked total to the minimum minus the delta.  The attached
    amount is never below the minimum, and neither amount grows when the
    delta grows. *)
Theorem sendNftTransfer_amounts_by_sign (min feeExtra : Z) :
  safeInteger feeExtra ->
  (feeExtra <= 0 ->
   nftTransferAmount min feeExtra = min - feeExtra
   /\ total min feeExtra = min - 2 * feeExtra)
  /\ (0 <= feeExtra ->
      nftTransferAmount min feeExtra = min
      /\ total min feeExtra = min - feeExtra)
  /\ min <= nftTransferAmount min feeExtra
  /\ (forall larger,
        safeInteger larger ->
        feeExtra <= larger ->
        nftTransferAmount min larger <= nftTransferAmount min feeExtra
        /\ total min larger <= total min feeExtra).
Proof.
  pose proof (nftTransferAmount_max min) as Hmax.
  pose proof (total_minus min) as Htot.
  intros _. repeat split; intros; rewrite ?Htot, ?Hmax; lia.
Qed.

Lemma sendNftTransfer_amounts_by_sign_witness :
  nftTransferAmount 50000000 (-7000000) = 57000000
  /\ total 50000000 (-7000000) = 64000000
  /\ nftTransferAmount 50000000 3000000 = 50000000
  /\ total 50000000 3000000 = 47000000.
Proof.
  assert (Hsafe : safeInteger (-7000000) /\ safeInteger 3000000)
    by (repeat split; now vm_compute).
  destruct (sendNftTransfer_amounts_by_sign 50000000 (-7000000)
              (proj1 Hsafe)) as (Hcost & _).
  destruct (sendNftTransfer_amounts_by_sign 50000000 3000000 (proj2 Hsafe))
    as (_ & Hrefund & _).
  destruct (Hcost ltac:(lia)) as [H1 H2].
  destruct (Hrefund ltac:(lia)) as [H3 H4].
  repeat split; assumption.
Defined.

Lemma sendNftTransferMin_message_checked min w ws r n fee pw seqno st key
    to value body :
  In (CreateTransferMessage seqno st key to value body)
     (trace (sendNftTransferMin min w ws r n fee pw)) ->
  exists wallet,
    accountState w ws = Some (wallet, seqno)
    /\ total min (extra fee) <= balance wallet
    /\ value = nftTransferAmount min (extra fee).
Proof.
  run_cases; intros H; in_trace H;
    match goal with
    | Hc : (balance ?a <? _) = false |- _ =>
        exists a; apply Z.ltb_ge in Hc;
        (split; [reflexivity|]); (split; [assumption | reflexivity])
    end.
Qed.

Lemma sendNftTransferMin_message_after_check min w ws r n fee pw seqno st
    key to value body wallet seqno' :
  accountState w ws = Some (wallet, seqno') ->
  In (CreateTransferMessage seqno st key to value body)
     (trace (sendNftTransferMin min w ws r n fee pw)) ->
  In (CheckWalletBalance (total min (extra fee)) wallet)
     (trace (sendNftTransferMin min w ws r n fee pw)).
Proof.
  intros Ha. run_cases; intros H; in_trace H;
    match goal with
    | Hs : Some _ = Some _ |- _ => inversion Hs; subst
    end;
    cbn [In]; do 4 right; left; reflexivity.
Qed.

(** X13.  For a fee delta in the safe-integer range: whenever
    [sendNftTransfer] assembles a message, the sufficiency check has
    passed on the fetched balance, and the value attached is the
    checked total plus the fee delta; so with a delta of at most 0 the
    value attached never exceeds the balance. *)
Theorem sendNftTransfer_value_within_balance (w : World) (ws : WalletState)
    (r : TonRecipientData) (n : NftItemRepr) (fee : MessageConsequences)
    (pw : string) :
  safeInteger (extra fee) ->
  forall seqno st key to value body,
    In (CreateTransferMessage seqno st key to value body)
       (trace (sendNftTransfer w ws r n fee pw)) ->
    exists wallet tot,
      accountState w ws = Some (wallet, seqno)
      /\ In (CheckWalletBalance tot wallet)
            (trace (sendNftTransfer w ws r n fee pw))
      /\ tot <= balance wallet
      /\ value = tot + extra fee
      /\ (extra fee <= 0 -> value <= balance wallet).
Proof.
  intros _ seqno st key to value body H. unfold sendNftTransfer in *.
  pose proof (sendNftTransferMin_message_checked _ _ _ _ _ _ _ _ _ _ _ _ _ H)
    as (wallet & Ha & Hle & ->).
  pose proof (sendNftTransferMin_message_after_check _ _ _ _ _ _ _ _ _ _ _
                _ _ _ _ Ha H) as Hin.
  exists wallet, (total minTransfer (extra fee)).
  split; [exact Ha|]. split; [exact Hin|]. split; [exact Hle|].
  rewrite total_minus in *. split; lia.
Qed.

Lemma sendNftTransfer_value_within_balance_witness :
  exists seqno st key to value body,
    In (CreateTransferMessage seqno st key to value body)
       (trace (sendNftTransfer (demoWorld 1000000000) demoWallet
                 demoRecipient demoNft (mkConsequences (-2)) "secret"))
    /\ value <= 1000000000.
Proof.
  destruct (nftTransferBody
              (mkTransferParams (Some 1700000000000) (mkAddress 0 11)
                 (mkAddress 0 8) 1 (Some (mkCell (uintBits 32 0) []))))
    as [body|e] eqn:Hbody; [|vm_compute in Hbody; discriminate Hbody].
  exists 7, demoWallet, demoKey, "0:nft", 50000002, body.
  assert (Hin : In (CreateTransferMessage 7 demoWallet demoKey "0:nft"
                      50000002 body)
                   (trace (sendNftTransfer (demoWorld 1000000000) demoWallet
                             demoRecipient demoNft (mkConsequences (-2))
                             "secret"))).
  { vm_compute in Hbody. inversion Hbody; subst body. find_event. }
  split; [exact Hin|].
  assert (Hsafe : safeInteger (-2)) by (split; now vm_compute).
  destruct (sendNftTransfer_value_within_balance (demoWorld 1000000000)
              demoWallet demoRecipient demoNft (mkConsequences (-2))
              "secret" Hsafe _ _ _ _ _ _ Hin)
    as (wallet & tot & Ha & _ & _ & _ & Hle).
  cbn in Ha. inversion Ha; subst wallet. apply Hle. simpl. lia.
Defined.

(** X14.  With a positive fee delta in the safe-integer range the
    sufficiency check of [sendNftTransfer] compares less than what is
    attached: when every collaborator succeeds and the balance lies
    between the checked total
    (the minimum minus the delta) and the attached minimum, the run
    succeeds and broadcasts a message whose value exceeds the balance. *)
Theorem sendNftTransfer_positive_delta_underfunds (w : World)
    (ws : WalletState) (r : TonRecipientData) (n : NftItemRepr)
    (fee : MessageConsequences) (pw : string) (words : list string)
    (wallet : Account) (seqno : Z) (owner response : Address)
    (body cell : Cell) :
  safeInteger (extra fee) ->
  0 < extra fee ->
  serviceTimeOk w = true ->
  walletMnemonic w (publicKey ws) pw = Some words ->
  accountState w ws = Some (wallet, seqno) ->
  50000000 - extra fee <= balance wallet < 50000000 ->
  parsedAddress w (toAccountRaw r) = Some owner ->
  parsedAddress w (rawAddress ws) = Some response ->
  nftTransferBody
    (mkTransferParams (Some (dateNow w)) owner response 1
       (commentPayload w r)) = Ok body ->
  transferMessage w seqno ws (secretKey (deriveKeyPair w words))
    (nftItemAddress n) 50000000 body = Some cell ->
  blockchainMessage w (toBase64 w cell) = true ->
  sendNftTransfer w ws r n fee pw
  = ([CheckServiceTime; GetWalletMnemonic (publicKey ws) pw;
      MnemonicToPrivateKey words; GetWalletBalance ws;
      CheckWalletBalance (50000000 - extra fee) wallet;
      CreateTransferMessage seqno ws (secretKey (deriveKeyPair w words))
        (nftItemAddress n) 50000000 body;
      SendBlockchainMessage (toBase64 w cell)], Ok tt)
  /\ balance wallet < 50000000.
Proof.
  intros Hsafe Hpos Hs Hm Ha Hbal Ho Hr Hbody Hcell Hsend.
  split; [|lia].
  assert (Hamt : nftTransferAmount minTransfer (extra fee) = 50000000)
    by (rewrite nftTransferAmount_max, minTransfer_value; lia).
  assert (Htot : total minTransfer (extra fee) = 50000000 - extra fee)
    by (rewrite total_minus, Hamt; reflexivity).
  rewrite (sendNftTransfer_run w ws r n fee pw words wallet seqno owner
             response body Hsafe Hs Hm Ha ltac:(rewrite Htot; lia) Ho Hr
             Hbody).
  rewrite Hamt, Htot, Hcell, Hsend. reflexivity.
Qed.

Lemma sendNftTransfer_positive_delta_underfunds_witness :
  exists t value,
    sendNftTransfer (demoWorld 49999999) demoWallet demoRecipient demoNft
      (mkConsequences 3) "secret" = (t, Ok tt)
    /\ List.nth_error t 5
       = Some (CreateTransferMessage 7 demoWallet demoKey "0:nft" 50000000
                 value)
    /\ balance (mkAccount 49999999) < 50000000.
Proof.
  destruct (nftTransferBody
              (mkTransferParams (Some 1700000000000) (mkAddress 0 11)
                 (mkAddress 0 8) 1 (Some (mkCell (uintBits 32 0) []))))
    as [body|e] eqn:Hbody; [|vm_compute in Hbody; discriminate Hbody].
  destruct (sendNftTransfer_positive_delta_underfunds (demoWorld 49999999)
              demoWallet demoRecipient demoNft (mkConsequences 3) "secret"
              ["abandon"; "ability"] (mkAccount 49999999) 7
              (mkAddress 0 11) (mkAddress 0 8) body
              (mkCell (uintBits 32 7 ++ coinsBits 50000000) [body]))
    as [Hrun Hlt]; try reflexivity; try exact Hbody; try (simpl; lia);
    try (split; now vm_compute).
  eexists. exists body. split; [exact Hrun|]. split; [reflexivity|exact Hlt].
Defined.

(** X15.  Estimate and send build the same message apart from the key:
    for the same wallet, item, amount and target, the message assembled by
    the estimate entry point and the one assembled by the send entry point
    have the same sequence number, wallet state, destination, value and
    body, the estimate with 64 zero bytes as key; for a transfer, where
    the value differs by design, they share sequence number, wallet state,
    destination and, at the same clock reading, the body. *)
Theorem estimate_and_send_same_message (w : World) (ws : WalletState)
    (nft : string) (amount : Z) (fee : MessageConsequences) (pw : string) :
  (forall s1 st1 k1 to1 v1 b1 s2 st2 k2 to2 v2 b2,
     In (CreateTransferMessage s1 st1 k1 to1 v1 b1)
        (trace (estimateNftRenew w (mkEstimateRenew ws nft amount))) ->
     In (CreateTransferMessage s2 st2 k2 to2 v2 b2)
        (trace (sendNftRenew w (mkSendRenew ws nft fee pw amount))) ->
     s1 = s2 /\ st1 = st2 /\ to1 = to2 /\ v1 = v2 /\ b1 = b2
     /\ k1 = repeat Byte.x00 64)
  /\ (forall target s1 st1 k1 to1 v1 b1 s2 st2 k2 to2 v2 b2,
        In (CreateTransferMessage s1 st1 k1 to1 v1 b1)
           (trace (estimateNftLink w
                     (mkEstimateLink ws nft target amount))) ->
        In (CreateTransferMessage s2 st2 k2 to2 v2 b2)
           (trace (sendNftLink w (mkSendLink ws nft target fee pw amount))) ->
        s1 = s2 /\ st1 = st2 /\ to1 = to2 /\ v1 = v2 /\ b1 = b2
        /\ k1 = repeat Byte.x00 64)
  /\ (forall r s1 st1 k1 to1 v1 b1 s2 st2 k2 to2 v2 b2,
        In (CreateTransferMessage s1 st1 k1 to1 v1 b1)
           (trace (estimateNftTransfer w ws r (mkNftItem nft))) ->
        In (CreateTransferMessage s2 st2 k2 to2 v2 b2)
           (trace (sendNftTransfer w ws r (mkNftItem nft) fee pw)) ->
        s1 = s2 /\ st1 = st2 /\ to1 = to2 /\ b1 = b2
        /\ k1 = repeat Byte.x00 64).
Proof.
  split; [|split].
  - intros s1 st1 k1 to1 v1 b1 s2 st2 k2 to2 v2 b2.
    unfold estimateNftRenew, sendNftRenew.
    cbn [erWalletState erNftAddress erAmount srWalletState srNftAddress
         srFee srPassword srAmount].
    run_cases; intros H1 H2; in_trace H1; in_trace H2;
      repeat split; first [reflexivity | congruence].
  - intros target s1 st1 k1 to1 v1 b1 s2 st2 k2 to2 v2 b2.
    unfold estimateNftLink, sendNftLink.
    cbn [elWalletState elNftAddress elAmount elLinkToAddress slWalletState
         slNftAddress slFee slPassword slAmount slLinkToAddress].
    run_cases; intros H1 H2; in_trace H1; in_trace H2;
      repeat split; first [reflexivity | congruence].
  - intros r s1 st1 k1 to1 v1 b1 s2 st2 k2 to2 v2 b2.
    run_cases; intros H1 H2; in_trace H1; in_trace H2;
      repeat split; first [reflexivity | congruence].
Qed.

(** X16.  No entry point assembles more than one message or submits more
    than once in a run: the trace of each holds at most one assembler
    call and at most one call to a broadcast or emulation endpoint, and an
    estimate holds no broadcast at all. *)
Theorem at_most_one_message_per_run (w : World) :
  let single {A : Type} (m : M A) :=
    (countCalls isAssemble (trace m) <= 1)%nat
    /\ (countCalls isBroadcast (trace m)
        + countCalls isEmulation (trace m) <= 1)%nat in
  (forall ws r n, single (estimateNftTransfer w ws r n)
                  /\ countCalls isBroadcast
                       (trace (estimateNftTransfer w ws r n)) = 0%nat)
  /\ (forall ws r n fee pw, single (sendNftTransfer w ws r n fee pw))
  /\ (forall o, single (estimateNftRenew w o)
                /\ countCalls isBroadcast (trace (estimateNftRenew w o))
                   = 0%nat)
  /\ (forall o, single (sendNftRenew w o))
  /\ (forall o, single (estimateNftLink w o)
                /\ countCalls isBroadcast (trace (estimateNftLink w o))
                   = 0%nat)
  /\ (forall o, single (sendNftLink w o)).
Proof.
  cbv zeta.
  split; [|split; [|split; [|split; [|split]]]]; intros;
    repeat split; run_cases; cbn; lia.
Qed.

(** X17.  [estimateNftRenew] and [estimateNftLink] return a string only
    after exactly four calls - service time, balance query,
    positive-balance check on a positive balance, assembly - and the string
    is the serialization of the cell the assembler returned for the
    fetched sequence number, 64 zero bytes as key, the given destination
    and amount, and the renew body, or the link body of the target. *)
Theorem estimate_record_success (w : World) (ws : WalletState)
    (nft target : string) (amount : Z) (boc : string) (t : list Event) :
  (estimateNftRenew w (mkEstimateRenew ws nft amount) = (t, Ok boc) ->
   exists wallet seqno body cell,
     accountState w ws = Some (wallet, seqno) /\ 0 < balance wallet
     /\ nftRenewBody None = Ok body
     /\ transferMessage w seqno ws (repeat Byte.x00 64) nft amount body
        = Some cell
     /\ boc = toBase64 w cell
     /\ t = [CheckServiceTime; GetWalletBalance ws;
             CheckWalletPositiveBalance wallet;
             CreateTransferMessage seqno ws (repeat Byte.x00 64) nft amount
               body])
  /\ (estimateNftLink w (mkEstimateLink ws nft target amount) = (t, Ok boc) ->
      exists wallet seqno body cell,
        accountState w ws = Some (wallet, seqno) /\ 0 < balance wallet
        /\ nftLinkBody w (mkLinkParams None target) = Ok body
        /\ transferMessage w seqno ws (repeat Byte.x00 64) nft amount body
           = Some cell
        /\ boc = toBase64 w cell
        /\ t = [CheckServiceTime; GetWalletBalance ws;
                CheckWalletPositiveBalance wallet;
                CreateTransferMessage seqno ws (repeat Byte.x00 64) nft
                  amount body]).
Proof.
  split.
  - cbn [erWalletState erNftAddress erAmount]. run_equation.
    match goal with
    | Hc : (balance ?a <=? 0) = false, Hs : accountState _ _ = Some (?a, ?z),
      Ht : transferMessage _ _ _ _ _ _ ?b = Some ?c |- _ =>
        exists a, z, b, c; apply Z.leb_gt in Hc
    end.
    repeat split; assumption.
  - cbn [elWalletState elNftAddress elAmount elLinkToAddress]. run_equation.
    match goal with
    | Hc : (balance ?a <=? 0) = false, Hs : accountState _ _ = Some (?a, ?z),
      Ht : transferMessage _ _ _ _ _ _ ?b = Some ?c |- _ =>
        exists a, z, b, c; apply Z.leb_gt in Hc
    end.
    repeat split; assumption.
Qed.

(** X18.  Nothing is submitted that was not assembled in the same run, and
    nothing is assembled on a send path before the key is there: in every
    entry point each broadcast or emulation call comes after the assembler
    call, and in the three send entry points each assembler call comes
    after the secret-store call and the key derivation. *)
Theorem submission_follows_assembly (w : World) :
  let submitted e := isBroadcast e || isEmulation e in
  let retrieval e :=
    match e with GetWalletMnemonic _ _ => true | _ => false end in
  let derivation e :=
    match e with MnemonicToPrivateKey _ => true | _ => false end in
  (forall ws r n,
     precededBy isAssemble submitted (trace (estimateNftTransfer w ws r n)))
  /\ (forall o, precededBy isAssemble submitted (trace (estimateNftRenew w o)))
  /\ (forall o, precededBy isAssemble submitted (trace (estimateNftLink w o)))
  /\ (forall ws r n fee pw,
        precededBy isAssemble submitted
          (trace (sendNftTransfer w ws r n fee pw))
        /\ precededBy retrieval isAssemble
             (trace (sendNftTransfer w ws r n fee pw))
        /\ precededBy derivation isAssemble
             (trace (sendNftTransfer w ws r n fee pw)))
  /\ (forall o,
        precededBy isAssemble submitted (trace (sendNftRenew w o))
        /\ precededBy retrieval isAssemble (trace (sendNftRenew w o))
        /\ precededBy derivation isAssemble (trace (sendNftRenew w o)))
  /\ (forall o,
        precededBy isAssemble submitted (trace (sendNftLink w o))
        /\ precededBy retrieval isAssemble (trace (sendNftLink w o))
        /\ precededBy derivation isAssemble (trace (sendNftLink w o))).
Proof.
  cbv zeta.
  split; [|split; [|split; [|split; [|split]]]]; intros;
    repeat split; apply guarded_precededBy; run_cases; reflexivity.
Qed.

Lemma estimate_and_send_same_message_witness :
  exists body st2 k2,
    In (CreateTransferMessage 7 demoWallet (repeat Byte.x00 64) "0:nft" 5
          body)
       (trace (estimateNftRenew (demoWorld 100)
                 (mkEstimateRenew demoWallet "0:nft" 5)))
    /\ In (CreateTransferMessage 7 st2 k2 "0:nft" 5 body)
          (trace (sendNftRenew (demoWorld 100)
                    (mkSendRenew demoWallet "0:nft" (mkConsequences 0)
                       "secret" 5)))
    /\ demoWallet = st2.
Proof.
  destruct (nftRenewBody None) as [body|e] eqn:Hbody;
    [|vm_compute in Hbody; discriminate Hbody].
  exists body, demoWallet, demoKey.
  assert (H1 : In (CreateTransferMessage 7 demoWallet (repeat Byte.x00 64)
                     "0:nft" 5 body)
                  (trace (estimateNftRenew (demoWorld 100)
                            (mkEstimateRenew demoWallet "0:nft" 5)))).
  { vm_compute in Hbody. inversion Hbody; subst body. find_event. }
  assert (H2 : In (CreateTransferMessage 7 demoWallet demoKey "0:nft" 5 body)
                  (trace (sendNftRenew (demoWorld 100)
                            (mkSendRenew demoWallet "0:nft"
                               (mkConsequences 0) "secret" 5)))).
  { vm_compute in Hbody. inversion Hbody; subst body. find_event. }
  split; [exact H1|]. split; [exact H2|].
  exact (proj1 (proj2 (proj1 (estimate_and_send_same_message (demoWorld 100)
                                demoWallet "0:nft" 5 (mkConsequences 0)
                                "secret")
                         _ _ _ _ _ _ _ _ _ _ _ _ H1 H2))).
Defined.

Lemma estimate_record_success_witness :
  exists t, estimateNftLink (demoWorld 100)
              (mkEstimateLink demoWallet "0:nft" "0:abc" 5)
            = (t, Ok "te6cc")
            /\ List.length t = 4%nat.
Proof.
  destruct (estimateNftLink (demoWorld 100)
              (mkEstimateLink demoWallet "0:nft" "0:abc" 5))
    as [t res] eqn:Hrun.
  assert (Hres : res = Ok "te6cc").
  { vm_compute in Hrun. now inversion Hrun. }
  subst res. exists t. split; [reflexivity|].
  destruct (proj2 (estimate_record_success (demoWorld 100) demoWallet "0:nft"
                     "0:abc" 5 "te6cc" t) Hrun)
    as (wallet & seqno & body & cell & _ & _ & _ & _ & _ & ->).
  reflexivity.
Defined.

Lemma transfer_message_payload (w : World) (r : TonRecipientData)
    (owner response : string) (body : Cell) :
  (newOwner <- Address_parse w owner ;;
   resp <- Address_parse w response ;;
   nftTransferBody
     (mkTransferParams (Some (dateNow w)) newOwner resp
        nftTransferForwardAmount (commentPayload w r)))%result = Ok body ->
  cellRefs body = maybeRefs (commentPayload w r)
  /\ List.length (cellBits body) = 644%nat.
Proof.
  intros H. apply transferBody_of_strings_Ok in H as (a & b & _ & _ & H).
  pose proof (nftTransferBody_length _ _ H) as (_ & _ & _ & Hlen).
  split; [|now apply Hlen].
  now apply nftTransferBody_Ok in H as ->.
Qed.

(** X19.  In both transfer entry points the forward payload follows the
    recipient's comment: the body of the assembled message has the comment
    cell as its only reference when the comment is a non-empty string, and
    no reference when the comment is absent or empty; either way the body
    has 644 bits. *)
Theorem transfer_payload_follows_comment (w : World) (ws : WalletState)
    (r : TonRecipientData) (n : NftItemRepr) (fee : MessageConsequences)
    (pw : string) :
  forall seqno st key to value body,
    In (CreateTransferMessage seqno st key to value body)
       (trace (estimateNftTransfer w ws r n))
    \/ In (CreateTransferMessage seqno st key to value body)
          (trace (sendNftTransfer w ws r n fee pw)) ->
    cellRefs body
    = match recipientComment r with
      | Some text => if truthy text then [commentCell w text] else []
      | None => []
      end
    /\ List.length (cellBits body) = 644%nat.
Proof.
  intros seqno st key to value body H.
  assert (Hrefs : maybeRefs (commentPayload w r)
                  = match recipientComment r with
                    | Some text =>
                        if truthy text then [commentCell w text] else []
                    | None => []
                    end).
  { unfold commentPayload. destruct (recipientComment r) as [text|];
      [destruct (truthy text)|]; reflexivity. }
  rewrite <- Hrefs. clear Hrefs.
  destruct H as [H|H]; revert H; run_cases; intros H; in_trace H;
    match goal with
    | Hr : rbind _ _ = Ok _ |- _ => now apply transfer_message_payload in Hr
    end.
Qed.

Lemma transfer_payload_follows_comment_witness :
  exists body,
    In (CreateTransferMessage 7 demoWallet (repeat Byte.x00 64) "0:nft"
          1000000000 body)
       (trace (estimateNftTransfer (demoWorld 100) demoWallet
                 (mkRecipient "0:recipient" (Some "")) demoNft))
    /\ cellRefs body = [].
Proof.
  destruct (nftTransferBody
              (mkTransferParams (Some 1700000000000) (mkAddress 0 11)
                 (mkAddress 0 8) 1 None)) as [body|e] eqn:Hbody;
    [|vm_compute in Hbody; discriminate Hbody].
  exists body.
  assert (Hin : In (CreateTransferMessage 7 demoWallet (repeat Byte.x00 64)
                      "0:nft" 1000000000 body)
                   (trace (estimateNftTransfer (demoWorld 100) demoWallet
                             (mkRecipient "0:recipient" (Some ""))
                             demoNft))).
  { vm_compute in Hbody. inversion Hbody; subst body. find_event. }
  split; [exact Hin|].
  exact (proj1 (transfer_payload_follows_comment (demoWorld 100) demoWallet
                  (mkRecipient "0:recipient" (Some "")) demoNft
                  (mkConsequences 0) "secret" _ _ _ _ _ _ (or_introl Hin))).
Defined.
